(** * SmartWeave: contract loading and contract interaction

    A shallow embedding of [src/contract-interact.ts] (the four interaction
    flows and the interaction-transaction builder [createTx]) and of
    [src/contract-load.ts] ([loadContract] and
    [createContractExecutionEnvironment]).

    The TypeScript code is a sequence of awaited calls on collaborators: the
    Arweave client, the state replay engine ([readContract]), the step
    function ([execute]) and the JavaScript host.  A flow is embedded as a
    finite tree of such calls ([Prog]); an interpreter ([run]) plays a tree
    against a [World] that answers every call, and records the calls in the
    order in which they were made.

    The [arweave] client that every function of the code receives is part
    of the world, so it is no argument here; an argument that the caller
    leaves out is [undefined] for the parameters typed [any], and the
    default written in the signature for the others. *)

From Stdlib Require Import String Ascii List ZArith Bool Lia.
From Stdlib Require Import DecimalString DecimalPos DecimalZ Eqdep_dec.
Import ListNotations.

Local Open Scope list_scope.
Set Warnings "-register-all".

(** ** JavaScript values *)

(** The numbers of the model are the safe integers: the integers that a
    double holds exactly, and that the language prints in plain digits. *)
Definition MAX_SAFE_INTEGER : Z := 9007199254740991.

Definition is_safe (z : Z) : bool := (Z.abs z <=? MAX_SAFE_INTEGER)%Z.

Record SafeInteger : Type := {
  integer : Z;
  integer_is_safe : is_safe integer = true
}.

(** A numeral written in this file, as a number of the model.  Every
    numeral that the file writes is safe; one that is not would be no
    number of the model, and stands for zero. *)
Definition SafeInteger_of_Z (z : Z) : SafeInteger :=
  match is_safe z as b return is_safe z = b -> SafeInteger with
  | true => fun H => {| integer := z; integer_is_safe := H |}
  | false => fun _ => {| integer := 0; integer_is_safe := eq_refl |}
  end eq_refl.

Coercion SafeInteger_of_Z : Z >-> SafeInteger.
Bind Scope Z_scope with SafeInteger.

(** The values that travel through the parameters typed [any]: interaction
    inputs, contract states, caller addresses.  Numbers are the safe
    integers and [NaN]; strings are UTF-8 texts; an object is the list of
    its properties (the first binding of a name is the property, and
    [own_properties] puts them in the order of enumeration).  Numbers with
    a fraction or beyond the safe range, the infinities, [BigInt]s,
    functions, symbols and objects that hold themselves are outside the
    model. *)
Inductive JsVal : Type :=
| JUndefined
| JNull
| JBool (b : bool)
| JNum (n : SafeInteger)
| JNaN
| JStr (s : string)
| JArr (items : list JsVal)
| JObj (fields : list (string * JsVal)).

(** ToBoolean, the test behind [if (x)], [!x], [x || y] and [x && y]. *)
Definition truthy (v : JsVal) : bool :=
  match v with
  | JUndefined | JNull | JNaN => false
  | JBool b => b
  | JNum n => negb (integer n =? 0)%Z
  | JStr s => negb (String.eqb s EmptyString)
  | JArr _ | JObj _ => true
  end.

(** A parameter declared [p : any = d]: the default replaces [undefined]
    (an omitted argument) and nothing else. *)
Definition default_param (d v : JsVal) : JsVal :=
  match v with
  | JUndefined => d
  | _ => v
  end.

Fixpoint get_field (name : string) (fields : list (string * JsVal)) : JsVal :=
  match fields with
  | [] => JUndefined
  | (k, v) :: rest => if String.eqb k name then v else get_field name rest
  end.

(** ** Strings of the host *)

Module Str.

Definition quote : string := String (ascii_of_nat 34) EmptyString.
Definition backslash : string := String (ascii_of_nat 92) EmptyString.
Definition newline : string := String (ascii_of_nat 10) EmptyString.

Fixpoint join (sep : string) (l : list string) : string :=
  match l with
  | [] => EmptyString
  | [s] => s
  | s :: rest => s ++ sep ++ join sep rest
  end%string.

Fixpoint drop (n : nat) (s : string) : string :=
  match n, s with
  | O, _ => s
  | S k, EmptyString => EmptyString
  | S k, String _ r => drop k r
  end.

(** [s.slice(-n)]: the last [n] characters, the whole string when it is
    shorter. *)
Definition slice_last (n : nat) (s : string) : string :=
  drop (String.length s - n) s.

Definition hex_digit (n : nat) : ascii :=
  if Nat.ltb n 10 then ascii_of_nat (48 + n) else ascii_of_nat (87 + n).

(** One character inside a JSON string literal. *)
Definition json_escape (c : ascii) : string :=
  let n := nat_of_ascii c in
  if Nat.eqb n 34 then backslash ++ quote
  else if Nat.eqb n 92 then backslash ++ backslash
  else if Nat.eqb n 8 then backslash ++ "b"
  else if Nat.eqb n 12 then backslash ++ "f"
  else if Nat.eqb n 10 then backslash ++ "n"
  else if Nat.eqb n 13 then backslash ++ "r"
  else if Nat.eqb n 9 then backslash ++ "t"
  else if Nat.ltb n 32 then
    backslash ++ "u00" ++ String (hex_digit (n / 16)) (String (hex_digit (n mod 16)) EmptyString)
  else String c EmptyString.

Fixpoint json_chars (s : string) : string :=
  match s with
  | EmptyString => EmptyString
  | String c r => json_escape c ++ json_chars r
  end%string.

Definition json_string (s : string) : string :=
  (quote ++ json_chars s ++ quote)%string.

Definition of_Z (n : Z) : string := NilZero.string_of_int (Z.to_int n).

(** The property names that are array indices: the numerals, written as
    the language prints them, of the integers below [2^32 - 1]. *)
Definition array_index (k : string) : option Z :=
  match NilZero.uint_of_string k with
  | Some u =>
      let i := Z.of_uint u in
      if String.eqb (of_Z i) k && (i <? 4294967295)%Z then Some i else None
  | None => None
  end.

End Str.

(** ** Own properties, in the order of enumeration *)

Section Properties.

Context {A : Type}.

(** The first binding of each name. *)
Fixpoint first_bindings (seen : list string) (l : list (string * A)) : list (string * A) :=
  match l with
  | [] => []
  | (k, v) :: r =>
      if existsb (String.eqb k) seen then first_bindings seen r
      else (k, v) :: first_bindings (k :: seen) r
  end.

Fixpoint insert_index (i : Z) (p : string * A) (l : list (Z * (string * A)))
  : list (Z * (string * A)) :=
  match l with
  | [] => [(i, p)]
  | (j, q) :: r => if (i <? j)%Z then (i, p) :: l else (j, q) :: insert_index i p r
  end.

(** The properties named by an array index, in ascending order of index. *)
Fixpoint indexed (l : list (string * A)) : list (Z * (string * A)) :=
  match l with
  | [] => []
  | p :: r =>
      match Str.array_index (fst p) with
      | Some i => insert_index i p (indexed r)
      | None => indexed r
      end
  end.

(** The other properties, in the order in which they were created. *)
Definition named (l : list (string * A)) : list (string * A) :=
  filter (fun p => match Str.array_index (fst p) with Some _ => false | None => true end) l.

(** OrdinaryOwnPropertyKeys: array indices first, then the other names. *)
Definition own_properties (l : list (string * A)) : list (string * A) :=
  let once := first_bindings [] l in
  map snd (indexed once) ++ named once.

End Properties.

(** The members of an object in a JSON text; a property whose value is
    [undefined] is left out. *)
Definition members (l : list (string * option string)) : list string :=
  flat_map (fun p =>
              match snd p with
              | Some s => [(Str.json_string (fst p) ++ ":" ++ s)%string]
              | None => []
              end) l.

(** [JSON.stringify], which yields [undefined] (here [None]) for
    [undefined]; inside an array [undefined] prints as [null], inside an
    object the property is left out.  The properties of an object are
    printed in the order of enumeration. *)
Fixpoint JSON_stringify (v : JsVal) : option string :=
  match v with
  | JUndefined => None
  | JNull | JNaN => Some "null"%string
  | JBool true => Some "true"%string
  | JBool false => Some "false"%string
  | JNum n => Some (Str.of_Z (integer n))
  | JStr s => Some (Str.json_string s)
  | JArr items =>
      let item x := match JSON_stringify x with Some s => s | None => "null"%string end in
      Some ("[" ++ Str.join "," (map item items) ++ "]")%string
  | JObj fields =>
      let field p := (fst p, JSON_stringify (snd p)) in
      Some ("{" ++ Str.join "," (members (own_properties (map field fields))) ++ "}")%string
  end.

(** A value inside a template literal, [`${v}`], for the results of
    [JSON.stringify]. *)
Definition template (v : option string) : string :=
  match v with
  | Some s => s
  | None => "undefined"%string
  end.

(** ** Reading a JSON text *)

(** [JSON.parse], for the spec's reading of the Input tag ("parses back to
    the original object"), on the texts that hold no white space, no
    number other than a safe integer and no escape [\u] above [\u007f];
    any other text is not read ([None]). *)
Module Json.

Definition is_number_char (c : ascii) : bool :=
  let n := nat_of_ascii c in
  Nat.eqb n 45 || (Nat.leb 48 n && Nat.leb n 57).

(** The longest run of digits and minus signs, and what follows it. *)
Fixpoint number_token (s : string) : string * string :=
  match s with
  | String c r =>
      if is_number_char c then
        let (t, r') := number_token r in (String c t, r')
      else (EmptyString, s)
  | EmptyString => (EmptyString, EmptyString)
  end.

(** A number is read when the token is the numeral that the language
    prints for it: no leading zero, no negative zero. *)
Definition parse_number (s : string) : option (JsVal * string) :=
  let (t, r) := number_token s in
  match NilZero.int_of_string t with
  | Some d =>
      let z := Z.of_int d in
      if String.eqb (Str.of_Z z) t && is_safe z then Some (JNum (SafeInteger_of_Z z), r)
      else None
  | None => None
  end.

Definition hex_value (c : ascii) : option nat :=
  let n := nat_of_ascii c in
  if Nat.leb 48 n && Nat.leb n 57 then Some (n - 48)
  else if Nat.leb 97 n && Nat.leb n 102 then Some (n - 87)
  else if Nat.leb 65 n && Nat.leb n 70 then Some (n - 55)
  else None.

(** The character after a backslash, other than [u]. *)
Definition escaped (c : ascii) : option ascii :=
  let n := nat_of_ascii c in
  if Nat.eqb n 34 || Nat.eqb n 92 || Nat.eqb n 47 then Some c
  else if Nat.eqb n 98 then Some (ascii_of_nat 8)
  else if Nat.eqb n 102 then Some (ascii_of_nat 12)
  else if Nat.eqb n 110 then Some (ascii_of_nat 10)
  else if Nat.eqb n 114 then Some (ascii_of_nat 13)
  else if Nat.eqb n 116 then Some (ascii_of_nat 9)
  else None.

(** The four digits after [\u], for the characters of one byte. *)
Definition unicode_escape (a b c d : ascii) : option ascii :=
  match hex_value a, hex_value b, hex_value c, hex_value d with
  | Some 0, Some 0, Some x, Some y =>
      if Nat.ltb x 8 then Some (ascii_of_nat (16 * x + y)) else None
  | _, _, _, _ => None
  end.

Definition push (c : ascii) (r : option (string * string)) : option (string * string) :=
  match r with
  | Some (t, rest) => Some (String c t, rest)
  | None => None
  end.

(** The characters of a string literal up to its closing quote, and what
    follows the quote. *)
Fixpoint parse_chars (s : string) : option (string * string) :=
  match s with
  | EmptyString => None
  | String c r =>
      let n := nat_of_ascii c in
      if Nat.eqb n 34 then Some (EmptyString, r)
      else if Nat.eqb n 92 then
        match r with
        | String e r1 =>
            if Nat.eqb (nat_of_ascii e) 117 then
              match r1 with
              | String a (String b (String x (String y r2))) =>
                  match unicode_escape a b x y with
                  | Some d => push d (parse_chars r2)
                  | None => None
                  end
              | _ => None
              end
            else
              match escaped e with
              | Some d => push d (parse_chars r1)
              | None => None
              end
        | EmptyString => None
        end
      else if Nat.ltb n 32 then None
      else push c (parse_chars r)
  end.

Fixpoint keyword (w s : string) : option string :=
  match w, s with
  | EmptyString, _ => Some s
  | String a w', String b s' => if Ascii.eqb a b then keyword w' s' else None
  | String _ _, EmptyString => None
  end.

Definition is_char (n : nat) (c : ascii) : bool := Nat.eqb (nat_of_ascii c) n.

Fixpoint distinct (l : list string) : bool :=
  match l with
  | [] => true
  | k :: r => negb (existsb (String.eqb k) r) && distinct r
  end.

(** An object whose text names a property twice is not read. *)
Definition object_of (l : list (string * JsVal)) : option JsVal :=
  if distinct (map fst l) then Some (JObj (own_properties l)) else None.

Fixpoint parse_value (fuel : nat) (s : string) : option (JsVal * string) :=
  match fuel with
  | O => None
  | S f =>
      match s with
      | EmptyString => None
      | String c r =>
          if is_char 91 c then
            match r with
            | String c1 r1 =>
                if is_char 93 c1 then Some (JArr [], r1)
                else
                  match parse_elements f r with
                  | Some (l, rest) => Some (JArr l, rest)
                  | None => None
                  end
            | EmptyString => None
            end
          else if is_char 123 c then
            match r with
            | String c1 r1 =>
                if is_char 125 c1 then Some (JObj [], r1)
                else
                  match parse_members f r with
                  | Some (l, rest) =>
                      match object_of l with
                      | Some o => Some (o, rest)
                      | None => None
                      end
                  | None => None
                  end
            | EmptyString => None
            end
          else if is_char 34 c then
            match parse_chars r with
            | Some (t, rest) => Some (JStr t, rest)
            | None => None
            end
          else if is_char 110 c then
            match keyword "null" s with
            | Some rest => Some (JNull, rest)
            | None => None
            end
          else if is_char 116 c then
            match keyword "true" s with
            | Some rest => Some (JBool true, rest)
            | None => None
            end
          else if is_char 102 c then
            match keyword "false" s with
            | Some rest => Some (JBool false, rest)
            | None => None
            end
          else parse_number s
      end
  end

(** The elements of an array after its bracket, up to the closing one. *)
with parse_elements (fuel : nat) (s : string) : option (list JsVal * string) :=
  match fuel with
  | O => None
  | S f =>
      match parse_value f s with
      | Some (v, String c r) =>
          if is_char 44 c then
            match parse_elements f r with
            | Some (l, rest) => Some (v :: l, rest)
            | None => None
            end
          else if is_char 93 c then Some ([v], r)
          else None
      | _ => None
      end
  end

(** The members of an object after its brace, up to the closing one. *)
with parse_members (fuel : nat) (s : string) : option (list (string * JsVal) * string) :=
  match fuel with
  | O => None
  | S f =>
      match s with
      | String q r =>
          if is_char 34 q then
            match parse_chars r with
            | Some (k, String colon r1) =>
                if is_char 58 colon then
                  match parse_value f r1 with
                  | Some (v, String c r2) =>
                      if is_char 44 c then
                        match parse_members f r2 with
                        | Some (l, rest) => Some ((k, v) :: l, rest)
                        | None => None
                        end
                      else if is_char 125 c then Some ([(k, v)], r2)
                      else None
                  | _ => None
                  end
                else None
            | _ => None
            end
          else None
      | EmptyString => None
      end
  end.

End Json.

(** The value that a whole text writes. *)
Definition JSON_parse (s : string) : option JsVal :=
  match Json.parse_value (String.length s) s with
  | Some (v, EmptyString) => Some v
  | _ => None
  end.

(** The values that a JSON text holds as they are: no [undefined], no
    [NaN], and objects whose properties are listed once each and in the
    order of enumeration. *)
Inductive json : JsVal -> Prop :=
| json_null : json JNull
| json_bool (b : bool) : json (JBool b)
| json_num (n : SafeInteger) : json (JNum n)
| json_str (s : string) : json (JStr s)
| json_arr (items : list JsVal) : Forall json items -> json (JArr items)
| json_obj (fields : list (string * JsVal)) :
    Forall (fun p => json (snd p)) fields ->
    Json.distinct (map fst fields) = true ->
    own_properties fields = fields ->
    json (JObj fields).

(** ** String to number conversion *)

(** The unary plus of [+winstonQty > 0] applied to a string: StringToNumber
    of the language standard, as far as the sign of the result goes.
    Strings are UTF-8 texts, so a white space character of the language is
    one, two or three bytes long. *)
Module Number.

Inductive Num : Type :=
| NaN
| Infinite (negative : bool)
| Finite (negative : bool) (mantissa : Z) (exp10 : Z).

(** TAB, LF, VT, FF, CR and SPACE. *)
Definition ascii_white_space (c : ascii) : bool :=
  let n := nat_of_ascii c in
  (Nat.leb 9 n && Nat.leb n 13) || Nat.eqb n 32.

(** The white space of three bytes: U+1680, U+2000 to U+200A, U+2028,
    U+2029, U+202F, U+205F, U+3000 and U+FEFF. *)
Definition white_space_of_three (a b c : nat) : bool :=
  (Nat.eqb a 225 && Nat.eqb b 154 && Nat.eqb c 128)
  || (Nat.eqb a 226 && Nat.eqb b 128
      && ((Nat.leb 128 c && Nat.leb c 138)
          || Nat.eqb c 168 || Nat.eqb c 169 || Nat.eqb c 175))
  || (Nat.eqb a 226 && Nat.eqb b 129 && Nat.eqb c 159)
  || (Nat.eqb a 227 && Nat.eqb b 128 && Nat.eqb c 128)
  || (Nat.eqb a 239 && Nat.eqb b 187 && Nat.eqb c 191).

(** One white space character at the head of [l] (WhiteSpace and
    LineTerminator, which are also the [\s] of a regular expression): what
    follows it.  The character of two bytes is U+00A0. *)
Definition white_space (l : list ascii) : option (list ascii) :=
  match l with
  | [] => None
  | c :: r =>
      if ascii_white_space c then Some r
      else
        match r with
        | [] => None
        | d :: r1 =>
            if Nat.eqb (nat_of_ascii c) 194 && Nat.eqb (nat_of_ascii d) 160 then Some r1
            else
              match r1 with
              | [] => None
              | e :: r2 =>
                  if white_space_of_three (nat_of_ascii c) (nat_of_ascii d) (nat_of_ascii e)
                  then Some r2
                  else None
              end
        end
  end.

Fixpoint skip_white (fuel : nat) (l : list ascii) : list ascii :=
  match fuel with
  | O => l
  | S f =>
      match white_space l with
      | Some r => skip_white f r
      | None => l
      end
  end.

Definition trim_left (l : list ascii) : list ascii := skip_white (length l) l.

Definition is_white (l : list ascii) : bool :=
  match trim_left l with
  | [] => true
  | _ :: _ => false
  end.

(** Without the longest run of white space at the end. *)
Fixpoint trim_right (l : list ascii) : list ascii :=
  if is_white l then []
  else
    match l with
    | c :: r => c :: trim_right r
    | [] => []
    end.

Definition trim (l : list ascii) : list ascii := trim_right (trim_left l).

Definition digit_in (base : Z) (c : ascii) : option Z :=
  let n := Z.of_nat (nat_of_ascii c) in
  let d :=
    if (48 <=? n)%Z && (n <=? 57)%Z then (n - 48)%Z
    else if (97 <=? n)%Z && (n <=? 102)%Z then (n - 87)%Z
    else if (65 <=? n)%Z && (n <=? 70)%Z then (n - 55)%Z
    else 99%Z in
  if (d <? base)%Z then Some d else None.

(** The longest run of digits at the head of [l]: the number read after
    [acc], how many digits were read, and what follows them. *)
Fixpoint digits (base acc : Z) (count : nat) (l : list ascii) : Z * nat * list ascii :=
  match l with
  | c :: r =>
      match digit_in base c with
      | Some d => digits base (acc * base + d)%Z (S count) r
      | None => (acc, count, l)
      end
  | [] => (acc, count, [])
  end.

Definition is_char (n : nat) (c : ascii) : bool := Nat.eqb (nat_of_ascii c) n.

(** ExponentPart, or nothing, up to the end of the literal. *)
Definition exponent (neg : bool) (mant : Z) (frac : nat) (l : list ascii) : Num :=
  match l with
  | [] => Finite neg mant (- Z.of_nat frac)
  | c :: r =>
      if is_char 101 c || is_char 69 c then
        let '(eneg, r1) :=
          match r with
          | s :: r' =>
              if is_char 45 s then (true, r')
              else if is_char 43 s then (false, r')
              else (false, r)
          | [] => (false, r)
          end in
        match digits 10 0 0 r1 with
        | (e, S _, []) => Finite neg mant ((if eneg then - e else e) - Z.of_nat frac)
        | _ => NaN
        end
      else NaN
  end.

Definition unsigned_decimal (neg : bool) (l : list ascii) : Num :=
  if list_eq_dec ascii_dec l (list_ascii_of_string "Infinity") then Infinite neg
  else
    let '(ip, n1, r1) := digits 10 0 0 l in
    match r1 with
    | c :: r2 =>
        if is_char 46 c then
          let '(m, n2, r3) := digits 10 ip 0 r2 in
          match n1, n2 with
          | O, O => NaN
          | _, _ => exponent neg m n2 r3
          end
        else match n1 with O => NaN | _ => exponent neg ip 0 r1 end
    | [] => match n1 with O => NaN | _ => Finite neg ip 0 end
    end.

Definition non_decimal (base : Z) (l : list ascii) : Num :=
  match digits base 0 0 l with
  | (v, S _, []) => Finite false v 0
  | _ => NaN
  end.

(** StrNumericLiteral: a sign and a decimal literal, or an integer of
    another base after [0x], [0o] or [0b]. *)
Definition of_literal (l : list ascii) : Num :=
  match l with
  | [] => Finite false 0 0
  | c :: r =>
      if is_char 45 c then unsigned_decimal true r
      else if is_char 43 c then unsigned_decimal false r
      else
        match r with
        | p :: r' =>
            if is_char 48 c && (is_char 120 p || is_char 88 p) then non_decimal 16 r'
            else if is_char 48 c && (is_char 111 p || is_char 79 p) then non_decimal 8 r'
            else if is_char 48 c && (is_char 98 p || is_char 66 p) then non_decimal 2 r'
            else unsigned_decimal false (c :: r)
        | [] => unsigned_decimal false (c :: r)
        end
  end.

(** The text between the white space is empty, which is zero, or has to be
    one literal. *)
Definition of_chars (l : list ascii) : Num := of_literal (trim l).

Definition of_string (s : string) : Num := of_chars (list_ascii_of_string s).

(** [x > 0] on the double nearest to the value read: a literal no larger
    than [2^-1075] rounds to zero, anything too large to infinity. *)
Definition gt0 (x : Num) : bool :=
  match x with
  | NaN => false
  | Infinite neg => negb neg
  | Finite neg m e =>
      negb neg && (0 <? m)%Z &&
      (if (0 <=? e)%Z then true else (10 ^ (- e) <? m * 2 ^ 1075)%Z)
  end.

End Number.

(** ** Numeric strings, as the language standard writes them *)

(** The grammar of StringNumericLiteral with the value of each literal,
    stated by the shape of the text and not by reading it from left to
    right: what the conversion above has to agree with. *)
Module Numeric.

(** The UTF-8 encodings of TAB, LF, VT, FF, CR, SPACE, U+00A0, U+1680,
    U+2000 to U+200A, U+2028, U+2029, U+202F, U+205F, U+3000 and U+FEFF. *)
Definition white_space_encodings : list (list nat) :=
  [ [9]; [10]; [11]; [12]; [13]; [32]; [194; 160]; [225; 154; 128];
    [226; 128; 128]; [226; 128; 129]; [226; 128; 130]; [226; 128; 131];
    [226; 128; 132]; [226; 128; 133]; [226; 128; 134]; [226; 128; 135];
    [226; 128; 136]; [226; 128; 137]; [226; 128; 138];
    [226; 128; 168]; [226; 128; 169]; [226; 128; 175]; [226; 129; 159];
    [227; 128; 128]; [239; 187; 191] ].

Definition is_white_space (character : list ascii) : Prop :=
  In (map nat_of_ascii character) white_space_encodings.

(** A run of white space characters. *)
Inductive white : list ascii -> Prop :=
| white_nil : white []
| white_cons (character l : list ascii) :
    is_white_space character -> white l -> white (character ++ l).

(** [c] is the digit of value [d] in a base up to sixteen: one of [0] to
    [9], [a] to [f] or [A] to [F]. *)
Definition digit (base : Z) (c : ascii) (d : Z) : Prop :=
  (0 <= d < base)%Z /\
  ((d <= 9 /\ Z.of_nat (nat_of_ascii c) = 48 + d) \/
   (10 <= d /\ (Z.of_nat (nat_of_ascii c) = 87 + d \/
                Z.of_nat (nat_of_ascii c) = 55 + d)))%Z.

Definition value_of (base : Z) (ds : list Z) : Z :=
  fold_left (fun a d => a * base + d)%Z ds 0%Z.

(** One digit at least, with the number they write. *)
Definition numeral (base : Z) (l : list ascii) (v : Z) : Prop :=
  exists ds, ds <> [] /\ Forall2 (digit base) l ds /\ v = value_of base ds.

Definition indicator (c : ascii) : Prop := c = "e"%char \/ c = "E"%char.

(** ExponentPart, or none. *)
Inductive exponent_part : list ascii -> Z -> Prop :=
| exponent_none : exponent_part [] 0
| exponent_plain (i : ascii) (ds : list ascii) (v : Z) :
    indicator i -> numeral 10 ds v -> exponent_part (i :: ds) v
| exponent_plus (i : ascii) (ds : list ascii) (v : Z) :
    indicator i -> numeral 10 ds v -> exponent_part (i :: "+"%char :: ds) v
| exponent_minus (i : ascii) (ds : list ascii) (v : Z) :
    indicator i -> numeral 10 ds v -> exponent_part (i :: "-"%char :: ds) (- v).

(** StrUnsignedDecimalLiteral other than [Infinity]: the literal is worth
    [m * 10 ^ e].  With a point, the digits before and after it (one side
    may be empty, not both) write [m]. *)
Inductive decimal_literal : list ascii -> Z -> Z -> Prop :=
| decimal_whole (ip ex : list ascii) (m e : Z) :
    numeral 10 ip m -> exponent_part ex e -> decimal_literal (ip ++ ex) m e
| decimal_point (ip fp ex : list ascii) (m e : Z) :
    numeral 10 (ip ++ fp) m -> exponent_part ex e ->
    decimal_literal (ip ++ "."%char :: fp ++ ex) m (e - Z.of_nat (length fp)).









End Numeric.

(** ** Objects of the ledger client and of the contract runtime *)

Definition Tag : Type := (string * string)%type.

(** [Transaction] of the Arweave client, with its payload already decoded. *)
Record Transaction : Type := {
  tx_id : string;
  tx_owner : string;
  tx_target : string;
  tx_quantity : string;
  tx_reward : string;
  tx_data : string;
  tx_tags : list Tag;
  tx_signature : string
}.

(** [Transaction.addTag]: the tag goes to the end of the list. *)
Definition addTag (tx : Transaction) (name value : string) : Transaction :=
  {| tx_id := tx_id tx; tx_owner := tx_owner tx; tx_target := tx_target tx;
     tx_quantity := tx_quantity tx; tx_reward := tx_reward tx;
     tx_data := tx_data tx; tx_tags := tx_tags tx ++ [(name, value)];
     tx_signature := tx_signature tx |}.

(** What signing writes into the transaction it is given. *)
Record SignatureData : Type := {
  sig_id : string;
  sig_owner : string;
  sig_signature : string
}.

Definition setSignature (tx : Transaction) (s : SignatureData) : Transaction :=
  {| tx_id := sig_id s; tx_owner := sig_owner s; tx_target := tx_target tx;
     tx_quantity := tx_quantity tx; tx_reward := tx_reward tx;
     tx_data := tx_data tx; tx_tags := tx_tags tx;
     tx_signature := sig_signature s |}.

(** The fields of [Partial<CreateTransactionInterface>] that [createTx]
    sets; [None] is a field left out. *)
Record CreateTransactionInterface : Type := {
  opt_data : string;
  opt_target : option string;
  opt_quantity : option string
}.

Inductive Wallet : Type :=
| JWK (key : string)
| use_wallet
| no_wallet.

(** [wallet ? ... : ...]: a key object and the string ['use_wallet'] are
    truthy, [undefined] is not. *)
Definition wallet_truthy (w : Wallet) : bool :=
  match w with
  | no_wallet => false
  | _ => true
  end.

Record NetworkInfo : Type := { height : Z; current : string }.

Record Response : Type := { status : Z }.

(** Objects that live in the host and are only handled by reference. *)
Inductive SmartWeaveGlobal : Type := SwRef (addr : nat).
Inductive FunctionObject : Type := FnRef (addr : nat).
Inductive ContractHandler : Type := HandlerRef (addr : nat).

Record ContractInteraction : Type := { input : JsVal; caller : JsVal }.

(** Modelled from the spec: [ContractInteractionResult] is declared in
    [contract-step], which is not among the sources; the spec's
    ExecutionResult is a new state and an optional result. *)
Record ContractInteractionResult : Type := { state : JsVal; result : JsVal }.

Record InteractionTx : Type := {
  itx_id : string;
  owner_address : JsVal;
  recipient : string;
  tags : list Tag;
  fee_winston : string;
  quantity_winston : string;
  block_height : Z;
  block_id : string;
  block_timestamp : JsVal
}.

(** The object [loadContract] returns. *)
Record ContractRecord : Type := {
  cr_id : string;
  contractSrc : string;
  initState : JsVal;
  minFee : JsVal;
  contractTX : Transaction;
  handler : ContractHandler;
  swGlobal : SmartWeaveGlobal
}.

(** [contractInfoParam : any]: a record that [loadContract] built, or any
    other value. *)
Inductive ContractInfo : Type :=
| InfoRecord (c : ContractRecord)
| InfoValue (v : JsVal).

(** [contractInfo.handler] and [contractInfo.swGlobal] as [execute] and the
    assignment of [_activeTx] receive them. *)
Inductive Handler : Type :=
| HandlerFn (h : ContractHandler)
| HandlerValue (v : JsVal).

Inductive SwTarget : Type :=
| TargetGlobal (g : SmartWeaveGlobal)
| TargetValue (v : JsVal).

(** Modelled from the spec: the Tag Codec ([getTag] and [unpackTags] of
    [utils], which is not among the sources) is a pure function that
    extracts the name/value metadata attached to a transaction.  [getTag]
    gives the value of the first tag of that name, and a falsy value when
    there is none. *)
Fixpoint getTag_in (tags : list Tag) (name : string) : JsVal :=
  match tags with
  | [] => JBool false
  | (n, v) :: rest => if String.eqb n name then JStr v else getTag_in rest name
  end.

Definition getTag (tx : Transaction) (name : string) : JsVal :=
  getTag_in (tx_tags tx) name.

(** Modelled from the spec: the Tag Codec, decoding every tag of a
    transaction ([unpackTags] of [utils], not among the sources). *)
Definition unpackTags (tx : Transaction) : list Tag := tx_tags tx.

(** ** Calls on the collaborators *)

Inductive Op : Type :=
| TransactionsGet (id : JsVal)
| TransactionsPost (tx : Transaction)
| TransactionsSign (tx : Transaction) (wallet : Wallet)
| CreateTransaction (options : CreateTransactionInterface) (wallet : Wallet)
| WalletsGetAddress (wallet : Wallet)
| NetworkGetInfo
| ReadContract (contractId : string)
| Execute (h : Handler) (interaction : ContractInteraction) (latestState : JsVal)
| MathRandom
| NewSmartWeaveGlobal (contractId : string)
| NewFunction (body : string)
| CallFunction (f : FunctionObject) (sw : SmartWeaveGlobal)
| SetActiveTx (target : SwTarget) (activeTx : InteractionTx).

(** What each call gives back: [arweave.transactions.get], [.post],
    [.sign], [arweave.createTransaction], [arweave.wallets.getAddress],
    [arweave.network.getInfo], [readContract], [execute],
    [Math.random().toString()], [new SmartWeaveGlobal(arweave, { id })],
    [new Function],
    the call of that function on [(swGlobal, BigNumber, clarity)], and the
    store into the [_activeTx] property of a shared object. *)
Definition Resp (op : Op) : Type :=
  match op with
  | TransactionsGet _ => Transaction
  | TransactionsPost _ => Response
  | TransactionsSign _ _ => SignatureData
  | CreateTransaction _ _ => Transaction
  | WalletsGetAddress _ => string
  | NetworkGetInfo => NetworkInfo
  | ReadContract _ => JsVal
  | Execute _ _ _ => ContractInteractionResult
  | MathRandom => string
  | NewSmartWeaveGlobal _ => SmartWeaveGlobal
  | NewFunction _ => FunctionObject
  | CallFunction _ _ => ContractHandler
  | SetActiveTx _ _ => unit
  end.

Definition is_post (op : Op) : bool :=
  match op with TransactionsPost _ => true | _ => false end.


Definition is_sign (op : Op) : bool :=
  match op with TransactionsSign _ _ => true | _ => false end.

Definition is_getAddress (op : Op) : bool :=
  match op with WalletsGetAddress _ => true | _ => false end.

(** ** Programs *)

Inductive Exn : Type :=
| Error_ (message : string)
| TypeError (message : string)
| ContractError (message : JsVal)
| Rejected (reason : string).

Inductive Prog (A : Type) : Type :=
| Ret (a : A)
| Throw (e : Exn)
| Vis (op : Op) (k : Resp op -> Prog A).

Arguments Ret {A} a.
Arguments Throw {A} e.
Arguments Vis {A} op k.

Fixpoint bind {A B : Type} (m : Prog A) (f : A -> Prog B) : Prog B :=
  match m with
  | Ret a => f a
  | Throw e => Throw e
  | Vis op k => Vis op (fun r => bind (k r) f)
  end.

(** [await op]. *)
Definition call (op : Op) : Prog (Resp op) := Vis op (fun r => Ret r).

Declare Scope prog_scope.
Delimit Scope prog_scope with prog.
Bind Scope prog_scope with Prog.
Notation "x <- m ;; k" := (bind m (fun x => k))
  (at level 61, m at next level, right associativity) : prog_scope.
Notation "m ;; k" := (bind m (fun _ => k))
  (at level 61, right associativity) : prog_scope.
Local Open Scope prog_scope.

(** ** Running a program *)

Inductive Reply (R : Type) : Type :=
| Ok (r : R)
| Fail (reason : string).

Arguments Ok {R} r.
Arguments Fail {R} reason.

(** The collaborators taken together: given the calls made so far, the
    answer to the next one.  A failed call rejects the awaited promise. *)
Definition World : Type := list Op -> forall op : Op, Reply (Resp op).

Inductive Outcome (A : Type) : Type :=
| Returned (a : A)
| Thrown (e : Exn).

Arguments Returned {A} a.
Arguments Thrown {A} e.

(** No flow catches anything: the first exception ends the run. *)
Fixpoint run {A : Type} (w : World) (h : list Op) (p : Prog A) : list Op * Outcome A :=
  match p with
  | Ret a => (h, Returned a)
  | Throw e => (h, Thrown e)
  | Vis op k =>
      match w h op with
      | Ok r => run w (h ++ [op]) (k r)
      | Fail reason => (h ++ [op], Thrown (Rejected reason))
      end
  end.

Definition trace {A : Type} (w : World) (p : Prog A) : list Op := fst (run w [] p).
Definition outcome {A : Type} (w : World) (p : Prog A) : Outcome A := snd (run w [] p).

(** The awaited calls, under the names the code gives them. *)
Module arweave.
Definition transactions_get (id : JsVal) : Prog Transaction :=
  call (TransactionsGet id).
Definition transactions_post (tx : Transaction) : Prog Response :=
  call (TransactionsPost tx).
Definition transactions_sign (tx : Transaction) (wallet : Wallet) : Prog SignatureData :=
  call (TransactionsSign tx wallet).
Definition createTransaction (options : CreateTransactionInterface) (wallet : Wallet)
  : Prog Transaction :=
  call (CreateTransaction options wallet).
Definition wallets_getAddress (wallet : Wallet) : Prog string :=
  call (WalletsGetAddress wallet).
Definition network_getInfo : Prog NetworkInfo := call NetworkGetInfo.
End arweave.

Definition readContract (contractId : string) : Prog JsVal :=
  call (ReadContract contractId).

Definition execute (h : Handler) (interaction : ContractInteraction) (latestState : JsVal)
  : Prog ContractInteractionResult :=
  call (Execute h interaction latestState).

Definition Math_random_toString : Prog string := call MathRandom.

Definition new_SmartWeaveGlobal (contractId : string) : Prog SmartWeaveGlobal :=
  call (NewSmartWeaveGlobal contractId).

Definition new_Function (body : string) : Prog FunctionObject :=
  call (NewFunction body).

Definition call_Function (f : FunctionObject) (sw : SmartWeaveGlobal) : Prog ContractHandler :=
  call (CallFunction f sw).

(** ** contract-load.ts *)

(** The two patterns of [createContractExecutionEnvironment] are words
    separated by [\s+]; as each word starts with a letter the greedy match
    never backtracks. *)
Module Regex.

(** [\s*]: the white space is that of [Number.white_space]. *)
Definition skip_ws (s : string) : string :=
  string_of_list_ascii (Number.trim_left (list_ascii_of_string s)).

Fixpoint word (w s : string) : option string :=
  match w, s with
  | EmptyString, _ => Some s
  | String a w', String b s' => if Ascii.eqb a b then word w' s' else None
  | String _ _, EmptyString => None
  end.

(** [\s+]. *)
Definition ws_plus (s : string) : option string :=
  match Number.white_space (list_ascii_of_string s) with
  | Some _ => Some (skip_ws s)
  | None => None
  end.

Fixpoint words_after (ws : list string) (s : string) : option string :=
  match ws with
  | [] => Some s
  | w :: rest =>
      match ws_plus s with
      | Some s1 =>
          match word w s1 with
          | Some s2 => words_after rest s2
          | None => None
          end
      | None => None
      end
  end.

(** A match that starts at the head of [s]: what is left after it. *)
Definition match_at (pattern : list string) (s : string) : option string :=
  match pattern with
  | [] => Some s
  | w :: rest =>
      match word w s with
      | Some s1 => words_after rest s1
      | None => None
      end
  end.

(** [s.replace(/pattern/g, by)]; [skip] counts the characters of a match
    that are still to be passed over. *)
Fixpoint replace_from (pattern : list string) (by_ : string) (skip : nat) (s : string) : string :=
  match s with
  | EmptyString => EmptyString
  | String c r =>
      match skip with
      | S k => replace_from pattern by_ k r
      | O =>
          match match_at pattern s with
          | Some rest =>
              by_ ++ replace_from pattern by_ (String.length s - String.length rest - 1) r
          | None => String c (replace_from pattern by_ 0 r)
          end
      end
  end.

Definition replace_all (pattern : list string) (by_ s : string) : string :=
  replace_from pattern by_ 0 s.

End Regex.

(** The body handed to [new Function]. *)
Definition returningSrc (contractSrc : string) : string :=
  (Str.newline
   ++ "    const [SmartWeave, BigNumber, clarity] = arguments;" ++ Str.newline
   ++ "    clarity.SmartWeave = SmartWeave;" ++ Str.newline
   ++ "    class ContractError extends Error { constructor(message) { super(message); this.name = 'ContractError' } };" ++ Str.newline
   ++ "    function ContractAssert(cond, message) { if (!cond) throw new ContractError(message) };" ++ Str.newline
   ++ "    " ++ contractSrc ++ ";" ++ Str.newline
   ++ "    return handle;" ++ Str.newline
   ++ "  ")%string.

(** The helper that [returningSrc] declares for the contract. *)
Definition ContractAssert (cond message : JsVal) : Prog unit :=
  if negb (truthy cond) then Throw (ContractError message) else Ret tt.

Definition createContractExecutionEnvironment (contractSrc contractId : string)
  : Prog (ContractHandler * SmartWeaveGlobal) :=
  let contractSrc :=
    Regex.replace_all ["export"; "async"; "function"; "handle"]%string
                      "async function handle" contractSrc in
  let contractSrc :=
    Regex.replace_all ["export"; "function"; "handle"]%string
                      "function handle" contractSrc in
  let returningSrc := returningSrc contractSrc in
  swGlobal <- new_SmartWeaveGlobal contractId ;;
  getContractFunction <- new_Function returningSrc ;;
  handler <- call_Function getContractFunction swGlobal ;;
  Ret (handler, swGlobal).

Definition loadContract (contractID : string) : Prog ContractRecord :=
  contractTX <- arweave.transactions_get (JStr contractID) ;;
  let contractSrcTXID := getTag contractTX "Contract-Src" in
  let minFee := getTag contractTX "Min-Fee" in
  contractSrcTX <- arweave.transactions_get contractSrcTXID ;;
  let contractSrc := tx_data contractSrcTX in
  state <-
    (if truthy (getTag contractTX "Init-State") then
       Ret (getTag contractTX "Init-State")
     else if truthy (getTag contractTX "Init-State-TX") then
       stateTX <- arweave.transactions_get (getTag contractTX "Init-State-TX") ;;
       Ret (JStr (tx_data stateTX))
     else
       Ret (JStr (tx_data contractTX))) ;;
  env <- createContractExecutionEnvironment contractSrc contractID ;;
  Ret {| cr_id := contractID;
         contractSrc := contractSrc;
         initState := state;
         minFee := minFee;
         contractTX := contractTX;
         handler := fst env;
         swGlobal := snd env |}.

(** ** contract-interact.ts *)

Definition nonempty (s : string) : bool := negb (String.eqb s EmptyString).

(** The error of [createTx] for an input that is not truthy; the spec calls
    it InvalidInputError. *)
Definition InvalidInputError (input : JsVal) : Exn :=
  Error_ ("Input should be a truthy value: " ++ template (JSON_stringify input)).

(** Lines 242-251: the options that go to [arweave.createTransaction];
    [rnd] is [Math.random().toString()]. *)
Definition createTx_options (rnd target winstonQty : string) : CreateTransactionInterface :=
  let options := {| opt_data := Str.slice_last 4 rnd; opt_target := None; opt_quantity := None |} in
  if nonempty target then
    let options :=
      {| opt_data := opt_data options; opt_target := Some target;
         opt_quantity := opt_quantity options |} in
    if nonempty winstonQty && Number.gt0 (Number.of_string winstonQty) then
      {| opt_data := opt_data options; opt_target := opt_target options;
         opt_quantity := Some winstonQty |}
    else options
  else options.

Definition createTx (wallet : Wallet) (contractId : string) (input : JsVal)
    (tags : list Tag) (target winstonQty : string) : Prog Transaction :=
  rnd <- Math_random_toString ;;
  let options := createTx_options rnd target winstonQty in
  interactionTx <- arweave.createTransaction options wallet ;;
  if negb (truthy input) then Throw (InvalidInputError input)
  else
    let interactionTx :=
      fold_left (fun tx tag => addTag tx (fst tag) (snd tag)) tags interactionTx in
    let interactionTx := addTag interactionTx "App-Name" "SmartWeaveAction" in
    let interactionTx := addTag interactionTx "App-Version" "0.3.0" in
    let interactionTx := addTag interactionTx "Contract" contractId in
    let interactionTx := addTag interactionTx "Input" (template (JSON_stringify input)) in
    signed <- arweave.transactions_sign interactionTx wallet ;;
    Ret (setSignature interactionTx signed).

Definition interactWrite (wallet : Wallet) (contractId : string) (input : JsVal)
    (tags : list Tag) (target winstonQty : string) : Prog JsVal :=
  interactionTx <- createTx wallet contractId input tags target winstonQty ;;
  response <- arweave.transactions_post interactionTx ;;
  if negb (status response =? 200)%Z then Ret JNull
  else Ret (JStr (tx_id interactionTx)).

(** Truthiness and property access on a value of [contractInfoParam]. *)
Definition info_truthy (c : ContractInfo) : bool :=
  match c with
  | InfoRecord _ => true
  | InfoValue v => truthy v
  end.

Definition default_info (c : ContractInfo) : ContractInfo :=
  match c with
  | InfoValue v => InfoValue (default_param (JObj []) v)
  | InfoRecord _ => c
  end.

(** [v.name] for a name that is no built-in property: an exception on
    [undefined] and [null], [undefined] on every value that is no object. *)
Definition get_property (v : JsVal) (name : string) : Prog JsVal :=
  match v with
  | JUndefined | JNull =>
      Throw (TypeError ("Cannot read property '" ++ name ++ "' of " ++ template (JSON_stringify v)))
  | JObj fields => Ret (get_field name fields)
  | _ => Ret JUndefined
  end.

Definition info_swGlobal (c : ContractInfo) : Prog SwTarget :=
  match c with
  | InfoRecord r => Ret (TargetGlobal (swGlobal r))
  | InfoValue v => g <- get_property v "swGlobal" ;; Ret (TargetValue g)
  end.

Definition info_handler (c : ContractInfo) : Prog Handler :=
  match c with
  | InfoRecord r => Ret (HandlerFn (handler r))
  | InfoValue v => f <- get_property v "handler" ;; Ret (HandlerValue f)
  end.

(** [target._activeTx = activeTx] in module (strict) code: only an object
    takes the property. *)
Definition set_activeTx (target : SwTarget) (activeTx : InteractionTx) : Prog unit :=
  match target with
  | TargetGlobal _ | TargetValue (JObj _) | TargetValue (JArr _) =>
      call (SetActiveTx target activeTx)
  | TargetValue v =>
      Throw (TypeError ("Cannot set property '_activeTx' of " ++ template (JSON_stringify v)))
  end.

(** [contractInfo.swGlobal._activeTx = dummyActiveTx]. *)
Definition install_activeTx (contractInfo : ContractInfo) (activeTx : InteractionTx) : Prog unit :=
  target <- info_swGlobal contractInfo ;;
  set_activeTx target activeTx.

(** The object literal that the three simulating flows build from the
    transaction, the caller and the network information. *)
Definition dummyActiveTx (tx : Transaction) (from : JsVal) (info : NetworkInfo) : InteractionTx :=
  let ts := unpackTags tx in
  {| itx_id := tx_id tx;
     owner_address := from;
     recipient := tx_target tx;
     tags := ts;
     fee_winston := tx_reward tx;
     quantity_winston := tx_quantity tx;
     block_height := height info;
     block_id := current info;
     block_timestamp := JNull |}.

Definition interactWriteDryRun (wallet : Wallet) (contractId : string) (input : JsVal)
    (tags : list Tag) (target winstonQty : string)
    (myState fromParam : JsVal) (contractInfoParam : ContractInfo)
  : Prog ContractInteractionResult :=
  let myState := default_param (JObj []) myState in
  let fromParam := default_param (JObj []) fromParam in
  let contractInfoParam := default_info contractInfoParam in
  contractInfo <-
    (if info_truthy contractInfoParam then Ret contractInfoParam
     else r <- loadContract contractId ;; Ret (InfoRecord r)) ;;
  latestState <-
    (if truthy myState then Ret myState else readContract contractId) ;;
  from <-
    (if truthy fromParam then Ret fromParam
     else a <- arweave.wallets_getAddress wallet ;; Ret (JStr a)) ;;
  let interaction := {| input := input; caller := from |} in
  info <- arweave.network_getInfo ;;
  tx <- createTx wallet contractId input tags target winstonQty ;;
  install_activeTx contractInfo (dummyActiveTx tx from info) ;;
  h <- info_handler contractInfo ;;
  execute h interaction latestState.

Definition interactWriteDryRunCustom (tx : Transaction) (contractId : string) (input : JsVal)
    (myState fromParam : JsVal) (contractInfoParam : ContractInfo)
  : Prog ContractInteractionResult :=
  let myState := default_param (JObj []) myState in
  let fromParam := default_param (JObj []) fromParam in
  let contractInfoParam := default_info contractInfoParam in
  contractInfo <-
    (if info_truthy contractInfoParam then Ret contractInfoParam
     else r <- loadContract contractId ;; Ret (InfoRecord r)) ;;
  latestState <-
    (if truthy myState then Ret myState else readContract contractId) ;;
  let from := fromParam in
  let interaction := {| input := input; caller := from |} in
  info <- arweave.network_getInfo ;;
  install_activeTx contractInfo (dummyActiveTx tx from info) ;;
  h <- info_handler contractInfo ;;
  execute h interaction latestState.

Definition interactRead (wallet : Wallet) (contractId : string) (input : JsVal)
    (tags : list Tag) (target winstonQty : string) : Prog JsVal :=
  contractInfo <- loadContract contractId ;;
  latestState <- readContract contractId ;;
  from <-
    (if wallet_truthy wallet then a <- arweave.wallets_getAddress wallet ;; Ret (JStr a)
     else Ret (JStr EmptyString)) ;;
  let interaction := {| input := input; caller := from |} in
  info <- arweave.network_getInfo ;;
  tx <- createTx wallet contractId input tags target winstonQty ;;
  install_activeTx (InfoRecord contractInfo) (dummyActiveTx tx from info) ;;
  r <- execute (HandlerFn (handler contractInfo)) interaction latestState ;;
  Ret (result r).

(** ** Properties of programs and runs *)

(** Every call that a program can make, whatever the answers, satisfies
    [P]. *)
Inductive Calls {A : Type} (P : Op -> Prop) : Prog A -> Prop :=
| Calls_Ret (a : A) : Calls P (Ret a)
| Calls_Throw (e : Exn) : Calls P (Throw e)
| Calls_Vis (op : Op) (k : Resp op -> Prog A) :
    P op -> (forall r, Calls P (k r)) -> Calls P (Vis op k).

(** Every exception that a program raises by itself satisfies [Q]. *)
Inductive Throws {A : Type} (Q : Exn -> Prop) : Prog A -> Prop :=
| Throws_Ret (a : A) : Throws Q (Ret a)
| Throws_Throw (e : Exn) : Q e -> Throws Q (Throw e)
| Throws_Vis (op : Op) (k : Resp op -> Prog A) :
    (forall r, Throws Q (k r)) -> Throws Q (Vis op k).

(** A world in which no call fails. *)
Definition answers (w : World) : Prop :=
  forall (h : list Op) (op : Op), exists r : Resp op, w h op = Ok r.

(** The tags that [createTx] adds after those of the caller. *)
Definition fixed_tags (contractId : string) (input : JsVal) : list Tag :=
  [ ("App-Name", "SmartWeaveAction");
    ("App-Version", "0.3.0");
    ("Contract", contractId);
    ("Input", template (JSON_stringify input)) ]%string.

Definition with_tags (tx : Transaction) (ts : list Tag) : Transaction :=
  {| tx_id := tx_id tx; tx_owner := tx_owner tx; tx_target := tx_target tx;
     tx_quantity := tx_quantity tx; tx_reward := tx_reward tx;
     tx_data := tx_data tx; tx_tags := ts; tx_signature := tx_signature tx |}.

(** A falsy argument that is not [undefined], so that no default stands
    in for it: [null], [false], [0], [NaN] or the empty string. *)
Definition falsy_given (v : JsVal) : Prop :=
  truthy v = false /\ v <> JUndefined.

(** The last two calls of a simulation: the context is installed on the
    execution environment of [record], then its handler is invoked on
    [st]. *)
Definition installs_and_invokes (w : World) (h : list Op) (record : ContractRecord)
    (st given : JsVal) (tx : Transaction) (from : JsVal) (info : NetworkInfo)
  : list Op * Outcome ContractInteractionResult :=
  let install :=
    SetActiveTx (TargetGlobal (swGlobal record)) (dummyActiveTx tx from info) in
  let invoke :=
    Execute (HandlerFn (handler record)) {| input := given; caller := from |} st in
  match w h install with
  | Fail reason => (h ++ [install], Thrown (Rejected reason))
  | Ok _ =>
      (h ++ [install; invoke],
       match w (h ++ [install]) invoke with
       | Ok r => Returned r
       | Fail reason => Thrown (Rejected reason)
       end)
  end.

(** No call of [arweave.transactions.post]. *)
Definition not_post (op : Op) : Prop := is_post op = false.

(** A program that raises nothing by itself. *)
Definition never_throws {A : Type} (p : Prog A) : Prop := Throws (fun _ => False) p.


(** The value of the first tag of that name: the transaction has the tag
    when this is [Some]. *)
Definition tag_of (tx : Transaction) (name : string) : option string :=
  option_map snd (find (fun tag => String.eqb (fst tag) name) (tx_tags tx)).

(** The transaction has the tag, with a value that is not empty. *)
Definition has_tag (tx : Transaction) (name value : string) : Prop :=
  tag_of tx name = Some value /\ value <> EmptyString.

Definition lacks_tag (tx : Transaction) (name : string) : Prop :=
  tag_of tx name = None \/ tag_of tx name = Some EmptyString.

(** ** Kinds of calls *)

Definition is_setActiveTx (op : Op) : bool :=
  match op with SetActiveTx _ _ => true | _ => false end.

Definition is_execute (op : Op) : bool :=
  match op with Execute _ _ _ => true | _ => false end.

(** The calls of the loader: fetching a transaction, and the three steps
    that turn the source into a handler. *)
Definition loader_call (op : Op) : Prop :=
  match op with
  | TransactionsGet _ | NewSmartWeaveGlobal _ | NewFunction _ | CallFunction _ _ => True
  | _ => False
  end.

(** The calls of the custom dry run: those of the loader, reading the
    state, the network information, the active transaction, the handler. *)
Definition custom_call (op : Op) : Prop :=
  match op with
  | TransactionsGet _ | NewSmartWeaveGlobal _ | NewFunction _ | CallFunction _ _
  | ReadContract _ | NetworkGetInfo | SetActiveTx _ _ | Execute _ _ _ => True
  | _ => False
  end.

(** A call of a dry run that works on what the caller supplied: nothing is
    fetched, read or asked of the wallet, and the active transaction and
    the handler are those of the record, with the state and caller given. *)
Definition reuses (record : ContractRecord) (myState fromParam input : JsVal)
    (op : Op) : Prop :=
  match op with
  | TransactionsGet _ | ReadContract _ | WalletsGetAddress _ | TransactionsPost _
  | NewSmartWeaveGlobal _ | NewFunction _ | CallFunction _ _ => False
  | SetActiveTx t a => t = TargetGlobal (swGlobal record) /\ owner_address a = fromParam
  | Execute h i s =>
      h = HandlerFn (handler record) /\
      i = {| input := input; caller := fromParam |} /\ s = myState
  | _ => True
  end.

(** A call of a read made without a wallet: the wallet is never asked, the
    transaction is created and signed with [undefined] for the key, and the
    caller that the handler sees is the empty string. *)
Definition anonymous (op : Op) : Prop :=
  match op with
  | WalletsGetAddress _ | TransactionsPost _ => False
  | CreateTransaction _ wallet | TransactionsSign _ wallet => wallet = no_wallet
  | SetActiveTx _ a => owner_address a = JStr EmptyString
  | Execute _ i _ => caller i = JStr EmptyString
  | _ => True
  end.

(** [contractSrc] after the two replacements of
    [createContractExecutionEnvironment]. *)
Definition normalized_source (contractSrc : string) : string :=
  Regex.replace_all ["export"; "function"; "handle"]%string "function handle"
    (Regex.replace_all ["export"; "async"; "function"; "handle"]%string
       "async function handle" contractSrc).

(** A program that cannot return. *)
Fixpoint Stops {A : Type} (p : Prog A) : Prop :=
  match p with
  | Ret _ => False
  | Throw _ => True
  | Vis op k => forall r, Stops (k r)
  end.

(** The active transaction of a simulated interaction agrees with the
    interaction: same caller, the block that the network reported, no
    timestamp, and the Contract and Input tags of this interaction. *)
Definition describes (activeTx : InteractionTx) (contractId : string)
    (interaction : ContractInteraction) (info : NetworkInfo) : Prop :=
  owner_address activeTx = caller interaction /\
  block_height activeTx = height info /\
  block_id activeTx = current info /\
  block_timestamp activeTx = JNull /\
  In ("Contract"%string, contractId) (tags activeTx) /\
  In ("Input"%string, template (JSON_stringify (input interaction))) (tags activeTx).

Definition map_outcome {A B : Type} (f : A -> B) (o : Outcome A) : Outcome B :=
  match o with
  | Returned a => Returned (f a)
  | Thrown e => Thrown e
  end.

(** The fetch of the initial state, when it is kept in a transaction of
    its own: the third branch of [loadContract] that calls the ledger. *)
Definition state_fetch (defining : Transaction) : list Op :=
  if truthy (getTag defining "Init-State") then []
  else if truthy (getTag defining "Init-State-TX") then
    [TransactionsGet (getTag defining "Init-State-TX")]
  else [].

(** A call that neither stores an active transaction, nor invokes a
    handler, nor signs or posts. *)
Definition harmless (op : Op) : Prop :=
  is_setActiveTx op = false /\ is_execute op = false /\
  is_sign op = false /\ is_post op = false.

(** A call that neither stores an active transaction nor invokes a
    handler. *)
Definition quiet (op : Op) : Prop :=
  is_setActiveTx op = false /\ is_execute op = false.

(** What a simulating flow has done by the time it returns: its calls end
    with the store of an active transaction that describes the interaction
    and then the one invocation of the handler, on that interaction. *)
Definition simulated (w : World) (contractId : string) (given : JsVal)
    (h : list Op) (r : ContractInteractionResult) : Prop :=
  exists pre hinfo info target activeTx hdl interaction st,
    h = pre ++ [SetActiveTx target activeTx; Execute hdl interaction st] /\
    Forall quiet pre /\
    w hinfo NetworkGetInfo = Ok info /\
    describes activeTx contractId interaction info /\
    input interaction = given /\
    w (pre ++ [SetActiveTx target activeTx]) (Execute hdl interaction st) = Ok r.

(** The options of a [createTransaction] call made for a given target and
    quantity: a payload of at most four characters, and a quantity only
    together with the target, which is then not empty. *)
Definition well_formed_options (target winstonQty : string) (op : Op) : Prop :=
  match op with
  | CreateTransaction o _ =>
      String.length (opt_data o) <= 4 /\
      (opt_target o = None \/ (opt_target o = Some target /\ target <> EmptyString)) /\
      (opt_quantity o = None \/
       (opt_quantity o = Some winstonQty /\ opt_target o = Some target))
  | _ => True
  end.

Definition without_quantity (op : Op) : Prop :=
  match op with
  | CreateTransaction o _ => opt_quantity o = None
  | _ => True
  end.

Definition with_quantity (target winstonQty : string) (op : Op) : Prop :=
  match op with
  | CreateTransaction o _ =>
      opt_target o = Some target /\ opt_quantity o = Some winstonQty
  | _ => True
  end.

(** A string of decimal digits, one of which at least is not zero. *)
Definition is_digit (c : ascii) : bool :=
  (Nat.leb 48 (nat_of_ascii c) && Nat.leb (nat_of_ascii c) 57)%bool.

Definition is_nonzero_digit (c : ascii) : bool :=
  (Nat.leb 49 (nat_of_ascii c) && Nat.leb (nat_of_ascii c) 57)%bool.

Definition positive_integer (s : string) : bool :=
  (forallb is_digit (list_ascii_of_string s)
   && existsb is_nonzero_digit (list_ascii_of_string s))%bool.

(** ** Writing and reading JSON *)

(** The fuel that reads a value back. *)
Fixpoint size (v : JsVal) : nat :=
  match v with
  | JArr items => S (fold_right (fun x acc => S (size x + acc)) 0 items)
  | JObj fields => S (fold_right (fun p acc => S (size (snd p) + acc)) 0 fields)
  | _ => 1
  end.

(** What may follow a number. *)
Definition delimited (s : string) : Prop :=
  match s with
  | EmptyString => True
  | String c _ => Json.is_number_char c = false
  end.

(** The text of an element of an array. *)
Definition item (x : JsVal) : string :=
  match JSON_stringify x with Some s => s | None => "null"%string end.

(** The text of a member of an object. *)
Definition member (p : string * JsVal) : string :=
  (Str.json_string (fst p) ++ ":" ++ item (snd p))%string.

Definition elements_size (l : list JsVal) : nat :=
  fold_right (fun x acc => S (size x + acc)) 0 l.

Definition members_size (l : list (string * JsVal)) : nat :=
  fold_right (fun p acc => S (size (snd p) + acc)) 0 l.

(** With that much fuel every value, list of elements and list of members
    is read back from its text. *)
Definition reads_values (fuel : nat) : Prop :=
  forall v rest,
    size v <= fuel -> json v -> delimited rest ->
    Json.parse_value fuel (item v ++ rest) = Some (v, rest).

Definition reads_elements (fuel : nat) : Prop :=
  forall x xs rest,
    elements_size (x :: xs) <= fuel -> Forall json (x :: xs) ->
    Json.parse_elements fuel (Str.join "," (map item (x :: xs)) ++ "]" ++ rest)
    = Some (x :: xs, rest).

Definition reads_members (fuel : nat) : Prop :=
  forall p ps rest,
    members_size (p :: ps) <= fuel -> Forall (fun p => json (snd p)) (p :: ps) ->
    Json.parse_members fuel (Str.join "," (map member (p :: ps)) ++ "}" ++ rest)
    = Some (p :: ps, rest).

(** ** Numeric strings *)

(** A character that starts no white space. *)
Definition solid (c : ascii) : Prop := 33 <= nat_of_ascii c <= 126.

(** The digits end here: nothing is left, or what comes next is no digit. *)
Definition stops (base : Z) (l : list ascii) : Prop :=
  match l with
  | [] => True
  | c :: _ => Number.digit_in base c = None
  end.



(** [w] occurs in [s]. *)
Definition occurs (w s : string) : Prop :=
  exists pre post, s = (pre ++ w ++ post)%string.

(** A string of the white space of ASCII only. *)
Fixpoint all_ws (s : string) : bool :=
  match s with
  | EmptyString => true
  | String c r => (Number.ascii_white_space c && all_ws r)%bool
  end.

(** Whether [w] occurs in [s], by trying every position. *)
Fixpoint occursb (w s : string) : bool :=
  match Regex.word w s with
  | Some _ => true
  | None =>
      match s with
      | EmptyString => false
      | String _ r => occursb w r
      end
  end.

(** Every function that the environment builds has this body. *)
Definition builds (body : string) (op : Op) : Prop :=
  match op with
  | NewFunction b => b = body
  | _ => True
  end.

(** The calls of the write flow: the nonce, the transaction, its
    signature and its submission. *)
Definition write_call (op : Op) : Prop :=
  match op with
  | MathRandom | CreateTransaction _ _ | TransactionsSign _ _ | TransactionsPost _ => True
  | _ => False
  end.

(** A call that resolves nothing and simulates nothing: no fetch, no
    function built, no state read, no wallet asked, no active transaction
    stored, no handler invoked, nothing posted. *)
Definition resolves_nothing (op : Op) : Prop :=
  match op with
  | TransactionsGet _ | ReadContract _ | WalletsGetAddress _ | TransactionsPost _
  | NewSmartWeaveGlobal _ | NewFunction _ | CallFunction _ _
  | SetActiveTx _ _ | Execute _ _ _ => False
  | _ => True
  end.

(** A world for the examples: a contract [c1] whose source is the payload
    of [s1]; posting answers with the status given. *)
Module Sample.

Definition mkTx (id data : string) (ts : list Tag) : Transaction :=
  {| tx_id := id; tx_owner := "owner"; tx_target := EmptyString;
     tx_quantity := "0"; tx_reward := "10"; tx_data := data; tx_tags := ts;
     tx_signature := EmptyString |}.

Definition contract_tags : list Tag :=
  [("Contract-Src", "s1"); ("Init-State", "{}")]%string.

Definition source : string :=
  "export function handle(state, action) { return { state } }".

Definition world_with (defining : Transaction) (post_status : Z) : World :=
  fun _ op =>
    match op return Reply (Resp op) with
    | TransactionsGet (JStr "c1") => Ok defining
    | TransactionsGet (JStr "s1") => Ok (mkTx "s1" source [])
    | TransactionsGet (JStr "i1") => Ok (mkTx "i1" "{x:1}" [])
    | TransactionsGet _ => Fail "404"
    | TransactionsPost _ => Ok {| status := post_status |}
    | TransactionsSign _ _ =>
        Ok {| sig_id := "id1"; sig_owner := "me"; sig_signature := "sig" |}
    | CreateTransaction o _ => Ok (mkTx EmptyString (opt_data o) [])
    | WalletsGetAddress _ => Ok "addr"%string
    | NetworkGetInfo => Ok {| height := 7; current := "blk" |}
    | ReadContract _ => Ok (JObj [("counter"%string, JNum 0)])
    | Execute _ i s => Ok {| state := s; result := input i |}
    | MathRandom => Ok "0.123456"%string
    | NewSmartWeaveGlobal _ => Ok (SwRef 1)
    | NewFunction _ => Ok (FnRef 2)
    | CallFunction _ _ => Ok (HandlerRef 3)
    | SetActiveTx _ _ => Ok tt
    end.

Definition world : World := world_with (mkTx "c1" "{}" contract_tags) 200.

(** A world in which every call is answered. *)
Definition total_world : World :=
  fun _ op =>
    match op return Reply (Resp op) with
    | TransactionsGet _ => Ok (mkTx "c1" "{}" contract_tags)
    | TransactionsPost _ => Ok {| status := 200 |}
    | TransactionsSign _ _ =>
        Ok {| sig_id := "id1"; sig_owner := "me"; sig_signature := "sig" |}
    | CreateTransaction o _ => Ok (mkTx EmptyString (opt_data o) [])
    | WalletsGetAddress _ => Ok "addr"%string
    | NetworkGetInfo => Ok {| height := 7; current := "blk" |}
    | ReadContract _ => Ok (JObj [("counter"%string, JNum 0)])
    | Execute _ i s => Ok {| state := s; result := input i |}
    | MathRandom => Ok "0.123456"%string
    | NewSmartWeaveGlobal _ => Ok (SwRef 1)
    | NewFunction _ => Ok (FnRef 2)
    | CallFunction _ _ => Ok (HandlerRef 3)
    | SetActiveTx _ _ => Ok tt
    end.

Definition wallet : Wallet := JWK "key".

Definition transfer : JsVal :=
  JObj [("function", JStr "transfer"); ("qty", JNum 5)]%string.


(** The JSON text of [transfer]. *)
Definition transfer_text : string :=
  ("{" ++ Str.quote ++ "function" ++ Str.quote ++ ":"
       ++ Str.quote ++ "transfer" ++ Str.quote ++ ","
       ++ Str.quote ++ "qty" ++ Str.quote ++ ":5}")%string.

(** A world in which [Math.random] gives one number and then another that
    ends on the same four characters, and in which the id of a transaction
    is derived from its payload. *)
Definition draws_world : World :=
  fun h op =>
    match op as o return Reply (Resp o) with
    | MathRandom =>
        match h with
        | [] => Ok "0.123456"%string
        | _ :: _ => Ok "0.993456"%string
        end
    | TransactionsSign t _ =>
        Ok {| sig_id := ("id-" ++ tx_data t)%string; sig_owner := "me"; sig_signature := "sig" |}
    | o => world h o
    end.

(** One interaction, built twice. *)
Definition build : Prog Transaction :=
  createTx wallet "c1" transfer [] "t" "5".

Definition built : Transaction :=
  {| tx_id := "id-3456"; tx_owner := "me"; tx_target := EmptyString;
     tx_quantity := "0"; tx_reward := "10"; tx_data := "3456";
     tx_tags := [ ("App-Name", "SmartWeaveAction"); ("App-Version", "0.3.0");
                  ("Contract", "c1"); ("Input", transfer_text) ]%string;
     tx_signature := "sig" |}.

End Sample.

(** * Theorems *)

Section Runs.

Context {A : Type}.

Lemma run_bind {B : Type} (w : World) (m : Prog A) (f : A -> Prog B) :
  forall h,
    run w h (bind m f) =
    match run w h m with
    | (h', Returned a) => run w h' (f a)
    | (h', Thrown e) => (h', Thrown e)
    end.
Proof.
  induction m as [a | e | op k IH]; intros h; simpl; try reflexivity.
  destruct (w h op) as [r | reason]; [apply IH | reflexivity].
Qed.

Lemma Calls_run (P : Op -> Prop) (w : World) (p : Prog A) :
  Calls P p -> forall h, Forall P h -> Forall P (fst (run w h p)).
Proof.
  induction 1 as [a | e | op k Hop Hk IH]; intros h Hh; simpl; auto.
  destruct (w h op) as [r | reason]; simpl.
  - apply IH. apply Forall_app. split; [assumption | now constructor].
  - apply Forall_app. split; [assumption | now constructor].
Qed.

Lemma Throws_run (Q : Exn -> Prop) (w : World) (p : Prog A) :
  Throws Q p ->
  forall h e, snd (run w h p) = Thrown e -> Q e \/ exists reason, e = Rejected reason.
Proof.
  induction 1 as [a | e' He | op k Hk IH]; intros h e; simpl.
  - discriminate.
  - intros [= <-]. now left.
  - destruct (w h op) as [r | reason]; simpl.
    + apply IH.
    + intros [= <-]. right. now exists reason.
Qed.

End Runs.

Lemma Calls_bind {A B : Type} (P : Op -> Prop) (m : Prog A) (f : A -> Prog B) :
  Calls P m -> (forall a, Calls P (f a)) -> Calls P (bind m f).
Proof.
  induction 1 as [a | e | op k Hop Hk IH]; intros Hf; simpl.
  - apply Hf.
  - constructor.
  - constructor; [assumption | intros r; now apply IH].
Qed.

Lemma Throws_bind {A B : Type} (Q : Exn -> Prop) (m : Prog A) (f : A -> Prog B) :
  Throws Q m -> (forall a, Throws Q (f a)) -> Throws Q (bind m f).
Proof.
  induction 1 as [a | e He | op k Hk IH]; intros Hf; simpl.
  - apply Hf.
  - now constructor.
  - constructor; intros r; now apply IH.
Qed.

(** ** Which calls a flow can make *)

Create HintDb flows.

#[local] Hint Unfold
  arweave.transactions_get arweave.transactions_post arweave.transactions_sign
  arweave.createTransaction arweave.wallets_getAddress arweave.network_getInfo
  readContract execute Math_random_toString new_SmartWeaveGlobal new_Function
  call_Function call createContractExecutionEnvironment loadContract createTx
  get_property info_swGlobal info_handler set_activeTx install_activeTx
  interactWrite interactWriteDryRun interactWriteDryRunCustom interactRead : flows.

Ltac split_prog :=
  autounfold with flows;
  repeat first
    [ apply Calls_Ret | apply Calls_Throw
    | apply Calls_Vis; [ | intros ? ]
    | apply Calls_bind; [ | intros ? ]
    | match goal with
      | |- Calls _ (if ?b then _ else _) => destruct b
      | |- Calls _ (match ?x with _ => _ end) => destruct x
      end ].

Lemma interactWriteDryRun_calls wallet contractId input tags target winstonQty
    myState fromParam contractInfoParam :
  Calls not_post
    (interactWriteDryRun wallet contractId input tags target winstonQty
       myState fromParam contractInfoParam).
Proof. split_prog; reflexivity. Qed.

Lemma interactWriteDryRunCustom_calls tx contractId input myState fromParam
    contractInfoParam :
  Calls not_post
    (interactWriteDryRunCustom tx contractId input myState fromParam contractInfoParam).
Proof. split_prog; reflexivity. Qed.

(** C1.  Whatever the arguments and whatever the collaborators answer, the
    calls made by [interactWriteDryRun] and by [interactWriteDryRunCustom]
    never include [arweave.transactions.post]. *)
Theorem dry_runs_never_post :
  forall (w : World) wallet tx contractId input tags target winstonQty
         myState fromParam contractInfoParam,
    Forall (fun op => is_post op = false)
      (trace w (interactWriteDryRun wallet contractId input tags target winstonQty
                  myState fromParam contractInfoParam)) /\
    Forall (fun op => is_post op = false)
      (trace w (interactWriteDryRunCustom tx contractId input
                  myState fromParam contractInfoParam)).
Proof.
  intros. split.
  - apply (Calls_run not_post); [apply interactWriteDryRun_calls | constructor].
  - apply (Calls_run not_post); [apply interactWriteDryRunCustom_calls | constructor].
Qed.

(** ** JSON texts *)

Lemma append_assoc (a b c : string) : (a ++ b ++ c = (a ++ b) ++ c)%string.
Proof. induction a as [| x a IH]; cbn; [reflexivity | now rewrite IH]. Qed.

Lemma length_append (a b : string) :
  String.length (a ++ b) = String.length a + String.length b.
Proof. induction a as [| c a IH]; cbn; [reflexivity | now rewrite IH]. Qed.

Lemma append_nil_r (a : string) : (a ++ "")%string = a.
Proof. induction a as [| c a IH]; cbn; [reflexivity | now rewrite IH]. Qed.

(** *** Numbers *)

Lemma SafeInteger_eq (a b : SafeInteger) : integer a = integer b -> a = b.
Proof.
  destruct a as [x Hx], b as [y Hy]. cbn. intros ->.
  f_equal. apply UIP_dec, bool_dec.
Qed.

Lemma SafeInteger_of_Z_integer (z : Z) :
  is_safe z = true -> integer (SafeInteger_of_Z z) = z.
Proof.
  intros H. unfold SafeInteger_of_Z.
  assert (G : forall b (e : is_safe z = b),
             integer (match b as b0 return is_safe z = b0 -> SafeInteger with
                      | true => fun H0 => {| integer := z; integer_is_safe := H0 |}
                      | false => fun _ => {| integer := 0; integer_is_safe := eq_refl |}
                      end e) = z).
  { intros [|] e; [reflexivity | congruence]. }
  apply G.
Qed.

Lemma number_token_uint (u : Decimal.uint) (r : string) :
  delimited r ->
  Json.number_token (NilEmpty.string_of_uint u ++ r) = (NilEmpty.string_of_uint u, r).
Proof.
  intros Hr. induction u; cbn [NilEmpty.string_of_uint append Json.number_token];
    try (change (Json.is_number_char _) with true; cbv iota; now rewrite IHu).
  destruct r as [| c r]; [reflexivity | ]. cbn in *. now rewrite Hr.
Qed.

Lemma number_token_of_Z (z : Z) (r : string) :
  delimited r -> Json.number_token (Str.of_Z z ++ r) = (Str.of_Z z, r).
Proof.
  intros Hr. unfold Str.of_Z, NilZero.string_of_int, NilZero.string_of_uint.
  destruct (Z.to_int z) as [u | u].
  - destruct u; try apply (number_token_uint _ _ Hr).
    cbn. destruct r as [| c r]; [reflexivity | ]. cbn in *. now rewrite Hr.
  - cbn [append Json.number_token]. change (Json.is_number_char "-") with true. cbv iota.
    destruct u; try (now rewrite (number_token_uint _ _ Hr)).
    cbn. destruct r as [| c r]; [reflexivity | ]. cbn in *. now rewrite Hr.
Qed.

Lemma int_of_string_of_Z (z : Z) :
  NilZero.int_of_string (Str.of_Z z) = Some (Z.to_int z).
Proof.
  unfold Str.of_Z. apply NilZero.isi.
  - destruct z; cbn; try discriminate.
    intros [= H]. now apply Unsigned.to_uint_nonnil in H.
  - destruct z; cbn; try discriminate.
    intros [= H]. now apply Unsigned.to_uint_nonnil in H.
Qed.

Lemma parse_number_of_Z (n : SafeInteger) (r : string) :
  delimited r ->
  Json.parse_number (Str.of_Z (integer n) ++ r) = Some (JNum n, r).
Proof.
  intros Hr. unfold Json.parse_number.
  rewrite (number_token_of_Z _ _ Hr), int_of_string_of_Z, DecimalZ.of_to.
  rewrite String.eqb_refl, (integer_is_safe n). cbn [andb].
  do 3 f_equal. apply SafeInteger_eq, SafeInteger_of_Z_integer, integer_is_safe.
Qed.

Lemma of_Z_head (z : Z) :
  exists c t, Str.of_Z z = String c t /\ Json.is_number_char c = true.
Proof.
  unfold Str.of_Z, NilZero.string_of_int, NilZero.string_of_uint.
  destruct (Z.to_int z) as [u | u].
  - destruct u; cbn; eauto.
  - cbn; eauto.
Qed.

(** *** Strings *)

Lemma parse_chars_escape (c : ascii) (t : string) :
  Json.parse_chars (Str.json_escape c ++ t) = Json.push c (Json.parse_chars t).
Proof. destruct c as [[] [] [] [] [] [] [] []]; reflexivity. Qed.

Lemma parse_chars_json_chars (s rest : string) :
  Json.parse_chars (Str.json_chars s ++ Str.quote ++ rest) = Some (s, rest).
Proof.
  induction s as [| c s IH]; [reflexivity | ].
  cbn [Str.json_chars]. rewrite <- append_assoc, parse_chars_escape, IH. reflexivity.
Qed.

(** *** The order of enumeration does not look at the values *)

Section Own_properties.

Context {A B : Type} (f : A -> B).

Let g (p : string * A) : string * B := (fst p, f (snd p)).
Let G (q : Z * (string * A)) : Z * (string * B) := (fst q, g (snd q)).

Lemma first_bindings_map (l : list (string * A)) :
  forall seen, first_bindings seen (map g l) = map g (first_bindings seen l).
Proof.
  induction l as [| [k v] l IH]; intros seen; cbn; [reflexivity | ].
  destruct (existsb (String.eqb k) seen); cbn; now rewrite IH.
Qed.

Lemma insert_index_map (i : Z) (p : string * A) (l : list (Z * (string * A))) :
  insert_index i (g p) (map G l) = map G (insert_index i p l).
Proof.
  induction l as [| [j q] l IH]; cbn; [reflexivity | ].
  destruct (i <? j)%Z; cbn; [reflexivity | now rewrite IH].
Qed.

Lemma indexed_map (l : list (string * A)) : indexed (map g l) = map G (indexed l).
Proof.
  induction l as [| p l IH]; cbn; [reflexivity | ].
  destruct (Str.array_index (fst p)); rewrite IH; [apply insert_index_map | reflexivity].
Qed.

Lemma named_map (l : list (string * A)) : named (map g l) = map g (named l).
Proof.
  unfold named. induction l as [| p l IH]; cbn; [reflexivity | ].
  destruct (Str.array_index (fst p)); cbn; now rewrite IH.
Qed.

Lemma own_properties_map (l : list (string * A)) :
  own_properties (map g l) = map g (own_properties l).
Proof.
  unfold own_properties. cbn zeta.
  rewrite first_bindings_map, indexed_map, named_map, map_app, !map_map.
  reflexivity.
Qed.

End Own_properties.

(** *** The text of a value *)

Lemma json_stringify (v : JsVal) : json v -> JSON_stringify v = Some (item v).
Proof. unfold item. intros [ | [] | | | | ]; reflexivity. Qed.

Lemma item_arr (items : list JsVal) :
  item (JArr items) = ("[" ++ Str.join "," (map item items) ++ "]")%string.
Proof. reflexivity. Qed.

Lemma members_json (fields : list (string * JsVal)) :
  Forall (fun p => json (snd p)) fields ->
  members (map (fun p => (fst p, JSON_stringify (snd p))) fields) = map member fields.
Proof.
  induction 1 as [| p fields Hp _ IH]; [reflexivity | ].
  cbn [map members flat_map snd fst]. unfold members in IH. rewrite IH.
  unfold member at 1. now rewrite (json_stringify _ Hp).
Qed.

Lemma item_obj (fields : list (string * JsVal)) :
  Forall (fun p => json (snd p)) fields ->
  own_properties fields = fields ->
  item (JObj fields) = ("{" ++ Str.join "," (map member fields) ++ "}")%string.
Proof.
  intros Hj Hc. unfold item. cbn [JSON_stringify].
  rewrite (own_properties_map JSON_stringify), Hc, (members_json _ Hj). reflexivity.
Qed.

Lemma number_char_is_char (n : nat) (c : ascii) :
  Json.is_number_char c = true -> n < 45 \/ 45 < n < 48 \/ 57 < n ->
  Json.is_char n c = false.
Proof.
  unfold Json.is_number_char, Json.is_char. intros H Hn.
  apply orb_true_iff in H. rewrite andb_true_iff, Nat.eqb_eq, !Nat.leb_le in H.
  apply Nat.eqb_neq. lia.
Qed.

(** The text of a value starts with a character that closes no array. *)
Lemma item_head (v : JsVal) :
  json v -> exists c t, item v = String c t /\ Json.is_char 93 c = false.
Proof.
  intros [ | [] | n | s | items _ | fields Hj _ Hc];
    try (eexists _, _; split; [reflexivity | reflexivity]).
  - destruct (of_Z_head (integer n)) as (c & t & E & Hc).
    exists c, t. split; [exact E | ]. apply (number_char_is_char _ _ Hc). lia.
Qed.

Lemma size_pos (v : JsVal) : 1 <= size v.
Proof. destruct v; cbn; lia. Qed.

(** *** One step of the reader *)

Lemma parse_value_number (f : nat) (c : ascii) (r : string) :
  Json.is_number_char c = true ->
  Json.parse_value (S f) (String c r) = Json.parse_number (String c r).
Proof.
  intros H. cbn [Json.parse_value].
  rewrite !(number_char_is_char _ _ H) by lia. reflexivity.
Qed.

Lemma parse_value_string (f : nat) (r : string) :
  Json.parse_value (S f) (Str.quote ++ r)
  = match Json.parse_chars r with
    | Some (t, rest) => Some (JStr t, rest)
    | None => None
    end.
Proof. reflexivity. Qed.

Lemma parse_value_array (f : nat) (c : ascii) (r : string) :
  Json.is_char 93 c = false ->
  Json.parse_value (S f) (String "[" (String c r))
  = match Json.parse_elements f (String c r) with
    | Some (l, rest) => Some (JArr l, rest)
    | None => None
    end.
Proof.
  intros H. cbn [Json.parse_value]. change (Json.is_char 91 "[") with true.
  cbv iota. now rewrite H.
Qed.

Lemma parse_value_object (f : nat) (r : string) :
  Json.parse_value (S f) (String "{" (Str.quote ++ r))
  = match Json.parse_members f (Str.quote ++ r) with
    | Some (l, rest) =>
        match Json.object_of l with
        | Some o => Some (o, rest)
        | None => None
        end
    | None => None
    end.
Proof. reflexivity. Qed.

Lemma parse_elements_step (f : nat) (s : string) :
  Json.parse_elements (S f) s
  = match Json.parse_value f s with
    | Some (v, String c r) =>
        if Json.is_char 44 c then
          match Json.parse_elements f r with
          | Some (l, rest) => Some (v :: l, rest)
          | None => None
          end
        else if Json.is_char 93 c then Some ([v], r)
        else None
    | _ => None
    end.
Proof. reflexivity. Qed.

Lemma parse_members_step (f : nat) (r : string) :
  Json.parse_members (S f) (Str.quote ++ r)
  = match Json.parse_chars r with
    | Some (k, String colon r1) =>
        if Json.is_char 58 colon then
          match Json.parse_value f r1 with
          | Some (v, String c r2) =>
              if Json.is_char 44 c then
                match Json.parse_members f r2 with
                | Some (l, rest) => Some ((k, v) :: l, rest)
                | None => None
                end
              else if Json.is_char 125 c then Some ([(k, v)], r2)
              else None
          | _ => None
          end
        else None
    | _ => None
    end.
Proof. reflexivity. Qed.

Lemma comma_cons (r : string) : ("," ++ r)%string = String "," r.
Proof. reflexivity. Qed.

Lemma join_cons (a b : string) (l : list string) :
  Str.join "," (a :: b :: l) = (a ++ "," ++ Str.join "," (b :: l))%string.
Proof. reflexivity. Qed.

(** *** Reading back what was written *)

Lemma reads_elements_step (f : nat) :
  reads_values f -> reads_elements f -> reads_elements (S f).
Proof.
  intros HV HE x xs rest Hsize Hj. inversion Hj as [| ? ? Hx Hxs]; subst.
  cbn [elements_size fold_right] in Hsize. fold (elements_size xs) in Hsize.
  rewrite parse_elements_step. destruct xs as [| y ys].
  - cbn [map Str.join]. rewrite (HV x ("]" ++ rest)%string); [reflexivity | lia | exact Hx | reflexivity].
  - cbn [map]. rewrite join_cons, <- !append_assoc.
    rewrite (HV x); [ | lia | exact Hx | reflexivity].
    rewrite comma_cons. cbv beta iota. change (Json.is_char 44 ",") with true. cbv iota.
    change (item y :: map item ys) with (map item (y :: ys)).
    rewrite (HE y ys rest); [reflexivity | lia | exact Hxs].
Qed.

Lemma reads_members_step (f : nat) :
  reads_values f -> reads_members f -> reads_members (S f).
Proof.
  intros HV HM [k v] ps rest Hsize Hj. inversion Hj as [| ? ? Hv Hps]; subst.
  cbn [snd] in Hv. cbn [members_size fold_right snd] in Hsize.
  fold (members_size ps) in Hsize.
  assert (Hhead : forall more,
             Json.parse_members (S f) (member (k, v) ++ more)
             = match Json.parse_value f (item v ++ more) with
               | Some (v, String c r2) =>
                   if Json.is_char 44 c then
                     match Json.parse_members f r2 with
                     | Some (l, rest) => Some ((k, v) :: l, rest)
                     | None => None
                     end
                   else if Json.is_char 125 c then Some ([(k, v)], r2)
                   else None
               | _ => None
               end).
  { intros more. unfold member, Str.json_string. cbn [fst snd].
    rewrite <- !append_assoc, parse_members_step, parse_chars_json_chars.
    reflexivity. }
  destruct ps as [| q qs].
  - cbn [map Str.join]. rewrite Hhead.
    rewrite (HV v ("}" ++ rest)%string); [reflexivity | lia | exact Hv | reflexivity].
  - cbn [map]. rewrite join_cons, <- !append_assoc, Hhead.
    rewrite (HV v); [ | lia | exact Hv | reflexivity].
    rewrite comma_cons. cbv beta iota. change (Json.is_char 44 ",") with true. cbv iota.
    change (member q :: map member qs) with (map member (q :: qs)).
    rewrite (HM q qs rest); [reflexivity | lia | exact Hps].
Qed.

Lemma reads_values_step (f : nat) :
  reads_values f -> reads_elements f -> reads_members f -> reads_values (S f).
Proof.
  intros HV HE HM v rest Hsize Hj Hrest.
  destruct Hj as [ | [] | n | s | items Hitems | fields Hfields Hd Hc].
  - reflexivity.
  - reflexivity.
  - reflexivity.
  - destruct (of_Z_head (integer n)) as (c & t & E & Hc).
    change (item (JNum n)) with (Str.of_Z (integer n)). 
    rewrite <- (parse_number_of_Z n rest Hrest). rewrite E.
    apply (parse_value_number f c (t ++ rest) Hc).
  - change (item (JStr s)) with (Str.quote ++ Str.json_chars s ++ Str.quote)%string.
    rewrite <- !append_assoc, parse_value_string, parse_chars_json_chars. reflexivity.
  - rewrite item_arr. cbn [size] in Hsize. fold (elements_size items) in Hsize.
    destruct items as [| x xs]; [reflexivity | ].
    inversion Hitems as [| ? ? Hx _]; subst.
    destruct (item_head x Hx) as (c & t & E & Hc).
    pose proof (HE x xs rest ltac:(lia) Hitems) as Hread.
    cbn [append]. rewrite <- append_assoc.
    assert (Hs : exists r, (Str.join "," (map item (x :: xs)) ++ "]" ++ rest)%string
                           = String c r).
    { destruct xs as [| y ys]; cbn [map].
      - cbn [Str.join]. rewrite E. eexists; reflexivity.
      - rewrite join_cons, E. eexists; reflexivity. }
    destruct Hs as [r Hs]. rewrite Hs in *.
    rewrite (parse_value_array f c r Hc), Hread. reflexivity.
  - rewrite (item_obj _ Hfields Hc). cbn [size] in Hsize.
    fold (members_size fields) in Hsize.
    destruct fields as [| p ps]; [reflexivity | ].
    pose proof (HM p ps rest ltac:(lia) Hfields) as Hread.
    cbn [append]. rewrite <- append_assoc.
    assert (Hs : exists r, (Str.join "," (map member (p :: ps)) ++ "}" ++ rest)%string
                           = (Str.quote ++ r)%string).
    { destruct ps as [| q qs]; cbn [map].
      - cbn [Str.join]. unfold member, Str.json_string. eexists; reflexivity.
      - rewrite join_cons. unfold member at 1. unfold Str.json_string.
        eexists; reflexivity. }
    destruct Hs as [r Hs]. rewrite Hs in *.
    rewrite parse_value_object, Hread. unfold Json.object_of. now rewrite Hd, Hc.
Qed.

Lemma reads_all (fuel : nat) :
  reads_values fuel /\ reads_elements fuel /\ reads_members fuel.
Proof.
  induction fuel as [| f (HV & HE & HM)].
  - repeat split.
    + intros v rest H. pose proof (size_pos v). lia.
    + intros x xs rest H. cbn in H. lia.
    + intros p ps rest H. cbn in H. lia.
  - repeat split.
    + now apply reads_values_step.
    + now apply reads_elements_step.
    + now apply reads_members_step.
Qed.

(** *** Enough fuel *)

Lemma join_length (l : list string) :
  fold_right (fun s acc => S (String.length s + acc)) 0 l
  <= S (String.length (Str.join "," l)).
Proof.
  induction l as [| a [| b l] IH]; cbn [fold_right Str.join]; [lia | cbn; lia | ].
  cbn [fold_right Str.join] in IH. rewrite !length_append. cbn [String.length]. lia.
Qed.

Lemma size_le_length (n : nat) :
  forall v, size v <= n -> json v -> size v <= String.length (item v).
Proof.
  induction n as [| n IH]; intros v Hn Hj; [pose proof (size_pos v); lia | ].
  destruct Hj as [ | [] | z | s | items Hitems | fields Hfields Hd Hc];
    try (cbn; lia).
  - destruct (of_Z_head (integer z)) as (c & t & E & _).
    change (item (JNum z)) with (Str.of_Z (integer z)). rewrite E. cbn. lia.
  - rewrite item_arr. cbn [size] in *. cbn [append String.length].
    rewrite length_append. cbn [String.length].
    pose proof (join_length (map item items)) as Hjoin.
    assert (Hsum : fold_right (fun x acc => S (size x + acc)) 0 items
                   <= fold_right (fun s acc => S (String.length s + acc)) 0 (map item items)).
    { clear Hjoin. induction Hitems as [| x xs Hx _ IHl]; [cbn; lia | ].
      cbn [fold_right map] in *.
      assert (size x <= String.length (item x)) by (apply IH; [lia | exact Hx]).
      assert (fold_right (fun x acc => S (size x + acc)) 0 xs <= n) by lia.
      specialize (IHl ltac:(lia)). lia. }
    lia.
  - rewrite (item_obj _ Hfields Hc). cbn [size] in *. cbn [append String.length].
    rewrite length_append. cbn [String.length].
    pose proof (join_length (map member fields)) as Hjoin.
    assert (Hsum : fold_right (fun p acc => S (size (snd p) + acc)) 0 fields
                   <= fold_right (fun s acc => S (String.length s + acc)) 0 (map member fields)).
    { clear Hjoin Hd Hc. induction Hfields as [| p ps Hp _ IHl]; [cbn; lia | ].
      cbn [fold_right map] in *.
      assert (size (snd p) <= String.length (item (snd p))) by (apply IH; [lia | exact Hp]).
      assert (String.length (item (snd p)) <= String.length (member p)).
      { unfold member. rewrite !length_append. lia. }
      specialize (IHl ltac:(lia)). lia. }
    lia.
Qed.

(** Reading the text that [JSON.stringify] wrote gives the value back. *)
Lemma JSON_parse_stringify (v : JsVal) (text : string) :
  json v -> JSON_stringify v = Some text -> JSON_parse text = Some v.
Proof.
  intros Hj Ht. rewrite (json_stringify v Hj) in Ht. injection Ht as <-.
  unfold JSON_parse.
  pose proof (size_le_length (size v) v (le_n _) Hj) as Hsize.
  destruct (reads_all (String.length (item v))) as (HV & _ & _).
  pose proof (HV v EmptyString Hsize Hj I) as Hread.
  rewrite append_nil_r in Hread. now rewrite Hread.
Qed.

(** ** The interaction-transaction builder *)

Lemma with_tags_same (tx : Transaction) : with_tags tx (tx_tags tx) = tx.
Proof. now destruct tx. Qed.

Lemma addTag_with_tags (tx : Transaction) (ts : list Tag) (name value : string) :
  addTag (with_tags tx ts) name value = with_tags tx (ts ++ [(name, value)]).
Proof. reflexivity. Qed.

Lemma fold_addTag (tags : list Tag) :
  forall (tx : Transaction) (ts : list Tag),
    fold_left (fun t tag => addTag t (fst tag) (snd tag)) tags (with_tags tx ts)
    = with_tags tx (ts ++ tags).
Proof.
  induction tags as [| [n v] tags IH]; intros tx ts; simpl.
  - now rewrite app_nil_r.
  - rewrite addTag_with_tags, IH, <- app_assoc. reflexivity.
Qed.

(** The transaction that [createTx] hands to [sign]. *)
Lemma tagged_transaction (created : Transaction) contractId input (tags : list Tag) :
  addTag
    (addTag
       (addTag
          (addTag
             (fold_left (fun t tag => addTag t (fst tag) (snd tag)) tags created)
             "App-Name" "SmartWeaveAction")
          "App-Version" "0.3.0")
       "Contract" contractId)
    "Input" (template (JSON_stringify input))
  = with_tags created (tx_tags created ++ tags ++ fixed_tags contractId input).
Proof.
  rewrite <- (with_tags_same created) at 1.
  rewrite fold_addTag. rewrite !addTag_with_tags.
  unfold fixed_tags. rewrite <- !app_assoc. reflexivity.
Qed.

(** [createTx], call by call. *)
Lemma run_createTx (w : World) (h : list Op) wallet contractId input tags target winstonQty :
  run w h (createTx wallet contractId input tags target winstonQty) =
  match w h MathRandom with
  | Fail reason => (h ++ [MathRandom], Thrown (Rejected reason))
  | Ok rnd =>
      let options := createTx_options rnd target winstonQty in
      let h1 := h ++ [MathRandom] in
      let h2 := h1 ++ [CreateTransaction options wallet] in
      match w h1 (CreateTransaction options wallet) with
      | Fail reason => (h2, Thrown (Rejected reason))
      | Ok created =>
          if truthy input then
            let unsigned :=
              with_tags created (tx_tags created ++ tags ++ fixed_tags contractId input) in
            match w h2 (TransactionsSign unsigned wallet) with
            | Fail reason =>
                (h2 ++ [TransactionsSign unsigned wallet], Thrown (Rejected reason))
            | Ok signed =>
                (h2 ++ [TransactionsSign unsigned wallet],
                 Returned (setSignature unsigned signed))
            end
          else (h2, Thrown (InvalidInputError input))
      end
  end.
Proof.
  unfold createTx, Math_random_toString, arweave.createTransaction,
    arweave.transactions_sign, call.
  cbn [run bind].
  destruct (w h MathRandom) as [rnd | reason]; [ | reflexivity ].
  cbn zeta.
  destruct (w (h ++ [MathRandom])
              (CreateTransaction (createTx_options rnd target winstonQty) wallet))
    as [created | reason]; [ | reflexivity ].
  destruct (truthy input); cbn [negb run bind]; [ | reflexivity ].
  rewrite tagged_transaction.
  destruct (w _ (TransactionsSign _ wallet)) as [signed | reason]; reflexivity.
Qed.

Lemma run_interactWrite (w : World) wallet contractId input tags target winstonQty :
  run w [] (interactWrite wallet contractId input tags target winstonQty) =
  match run w [] (createTx wallet contractId input tags target winstonQty) with
  | (h, Thrown e) => (h, Thrown e)
  | (h, Returned tx) =>
      match w h (TransactionsPost tx) with
      | Fail reason => (h ++ [TransactionsPost tx], Thrown (Rejected reason))
      | Ok response =>
          (h ++ [TransactionsPost tx],
           Returned (if (status response =? 200)%Z then JStr (tx_id tx) else JNull))
      end
  end.
Proof.
  unfold interactWrite. rewrite run_bind.
  destruct (run w [] (createTx wallet contractId input tags target winstonQty))
    as [h [tx | e]]; [ | reflexivity ].
  unfold arweave.transactions_post, call. cbn [run bind].
  destruct (w h (TransactionsPost tx)) as [response | reason]; [ | reflexivity ].
  cbn [run bind]. destruct (status response =? 200)%Z; reflexivity.
Qed.

(** C2, counterexample.  With [input = null] the write flow fails with the
    input error, but by then [arweave.createTransaction] has been called
    and has built a transaction. *)
Lemma interactWrite_null_after_createTransaction :
  run Sample.world [] (interactWrite Sample.wallet "c1" JNull [] "" "")
  = ([MathRandom;
      CreateTransaction
        {| opt_data := "3456"; opt_target := None; opt_quantity := None |}
        Sample.wallet],
     Thrown (InvalidInputError JNull))
  /\ Sample.world [MathRandom]
       (CreateTransaction
          {| opt_data := "3456"; opt_target := None; opt_quantity := None |}
          Sample.wallet)
     = Ok (Sample.mkTx "" "3456" []).
Proof. split; reflexivity. Qed.

(** C2, amended.  A write with a falsy input never returns and never signs
    or posts anything.  The input is tested after the transaction has been
    requested from the ledger client: when [Math.random] and
    [arweave.createTransaction] answer, these are the only two calls and
    the failure is the input error. *)
Theorem interactWrite_falsy_input :
  forall (w : World) wallet contractId input tags target winstonQty,
    truthy input = false ->
    (forall v, outcome w (interactWrite wallet contractId input tags target winstonQty)
               <> Returned v) /\
    Forall (fun op => is_sign op = false /\ is_post op = false)
      (trace w (interactWrite wallet contractId input tags target winstonQty)) /\
    (forall rnd created,
        w [] MathRandom = Ok rnd ->
        w [MathRandom] (CreateTransaction (createTx_options rnd target winstonQty) wallet)
          = Ok created ->
        run w [] (interactWrite wallet contractId input tags target winstonQty)
        = ([MathRandom; CreateTransaction (createTx_options rnd target winstonQty) wallet],
           Thrown (InvalidInputError input))).
Proof.
  intros w wallet contractId input tags target winstonQty Hin.
  unfold outcome, trace.
  rewrite run_interactWrite, run_createTx, Hin. cbn zeta.
  destruct (w [] MathRandom) as [rnd | reason]; cbn [app].
  - destruct (w [MathRandom] (CreateTransaction (createTx_options rnd target winstonQty) wallet))
      as [created | reason] eqn:Hc.
    + repeat split; try discriminate.
      * repeat constructor.
      * intros rnd' created' [= <-] Hc'. reflexivity.
    + repeat split; try discriminate.
      * repeat constructor.
      * intros rnd' created' [= <-] Hc'. rewrite Hc in Hc'. discriminate.
  - repeat split; try discriminate.
    repeat constructor.
Qed.

Lemma interactWrite_falsy_input_witness :
  run Sample.world [] (interactWrite Sample.wallet "c1" (JStr "") [] "t" "5")
  = ([MathRandom;
      CreateTransaction (createTx_options "0.123456" "t" "5") Sample.wallet],
     Thrown (InvalidInputError (JStr ""))).
Proof.
  exact (proj2 (proj2 (interactWrite_falsy_input Sample.world Sample.wallet
                         "c1"%string (JStr "") [] "t"%string "5"%string eq_refl))
           "0.123456"%string _ eq_refl eq_refl).
Defined.

(** C6.  Once the transaction is built, the write flow posts it; whatever
    the answer, the flow returns: the id of the transaction when the
    status is 200, [null] otherwise. *)
Theorem interactWrite_result :
  forall (w : World) wallet contractId input tags target winstonQty h tx response,
    run w [] (createTx wallet contractId input tags target winstonQty) = (h, Returned tx) ->
    w h (TransactionsPost tx) = Ok response ->
    run w [] (interactWrite wallet contractId input tags target winstonQty)
    = (h ++ [TransactionsPost tx],
       Returned (if (status response =? 200)%Z then JStr (tx_id tx) else JNull)).
Proof.
  intros w wallet contractId input tags target winstonQty h tx response Htx Hpost.
  rewrite run_interactWrite, Htx, Hpost. reflexivity.
Qed.

Lemma interactWrite_result_witness :
  outcome (Sample.world_with (Sample.mkTx "c1" "{}" Sample.contract_tags) 200)
    (interactWrite Sample.wallet "c1" Sample.transfer [] "" "")
  = Returned (JStr "id1")
  /\ outcome (Sample.world_with (Sample.mkTx "c1" "{}" Sample.contract_tags) 503)
       (interactWrite Sample.wallet "c1" Sample.transfer [] "" "")
     = Returned JNull.
Proof.
  unfold outcome. split.
  - erewrite interactWrite_result; [ | reflexivity | reflexivity ]; reflexivity.
  - erewrite interactWrite_result; [ | reflexivity | reflexivity ]; reflexivity.
Defined.

Lemma length_drop (s : string) :
  forall n, String.length (Str.drop n s) = String.length s - n.
Proof.
  induction s as [| c s IH]; intros [| n]; simpl; auto.
Qed.

Lemma slice_last_length (n : nat) (s : string) :
  String.length (Str.slice_last n s) <= n.
Proof. unfold Str.slice_last. rewrite length_drop. lia. Qed.

Lemma total_world_answers : answers Sample.total_world.
Proof. intros h op. destruct op; eexists; reflexivity. Qed.

Lemma truthy_stringify (input : JsVal) :
  truthy input = true -> JSON_stringify input = Some (item input).
Proof. unfold item. destruct input as [ | | [] | | | | | ]; try discriminate; reflexivity. Qed.

Lemma createTx_options_data (rnd target winstonQty : string) :
  opt_data (createTx_options rnd target winstonQty) = Str.slice_last 4 rnd.
Proof.
  unfold createTx_options. destruct (nonempty target); [ | reflexivity ].
  destruct (nonempty winstonQty && _); reflexivity.
Qed.

Lemma createTx_options_same (rnd rnd' target winstonQty : string) :
  createTx_options rnd target winstonQty = createTx_options rnd' target winstonQty
  <-> Str.slice_last 4 rnd = Str.slice_last 4 rnd'.
Proof.
  split.
  - intros H. rewrite <- !(createTx_options_data _ target winstonQty). now rewrite H.
  - intros H. unfold createTx_options. now rewrite H.
Qed.

(** C5, counterexample.  Two builds of the same interaction for which
    [Math.random] gives two different numbers, [0.123456] and then
    [0.993456]: the payload keeps the last four characters only, so both
    transactions are created from the same options, and with an id derived
    from the payload they are the same transaction. *)
Lemma createTx_payloads_collide :
  Sample.draws_world [] MathRandom = Ok "0.123456"%string /\
  Sample.draws_world (trace Sample.draws_world Sample.build) MathRandom
  = Ok "0.993456"%string /\
  outcome Sample.draws_world
    (first <- Sample.build ;; second <- Sample.build ;; Ret (first, second))
  = Returned (Sample.built, Sample.built).
Proof. repeat split. Qed.

(** C5, amended.  For a truthy input, a transaction that [createTx] returns
    is the one the ledger client created from options whose payload is the
    last four characters (at most) of [Math.random().toString()], with the
    tags of the caller and then App-Name, App-Version, Contract and Input
    added to it, and signed; the Input tag is the text that
    [JSON.stringify] writes for the input, and reading that text gives the
    input back; [createTx] does return a transaction when its calls are
    answered.  Two builds of one interaction are created from different
    options exactly when the last four characters of their two random
    numbers differ: that they differ is not guaranteed. *)
Theorem createTx_tags_and_nonce :
  forall (w : World) h wallet contractId input tags target winstonQty,
    truthy input = true ->
    (answers w ->
     exists h' tx,
       run w h (createTx wallet contractId input tags target winstonQty)
       = (h', Returned tx)) /\
    (forall h' tx,
        run w h (createTx wallet contractId input tags target winstonQty)
        = (h', Returned tx) ->
        exists rnd created text,
          w h MathRandom = Ok rnd /\
          w (h ++ [MathRandom])
            (CreateTransaction (createTx_options rnd target winstonQty) wallet)
          = Ok created /\
          opt_data (createTx_options rnd target winstonQty) = Str.slice_last 4 rnd /\
          String.length (Str.slice_last 4 rnd) <= 4 /\
          tx_data tx = tx_data created /\
          JSON_stringify input = Some text /\
          (json input -> JSON_parse text = Some input) /\
          tx_tags tx
          = tx_tags created ++ tags
            ++ [ ("App-Name", "SmartWeaveAction"); ("App-Version", "0.3.0");
                 ("Contract", contractId); ("Input", text) ]%string /\
          Forall (fun tag => In tag (tx_tags tx))
            (tags ++ [ ("App-Name", "SmartWeaveAction"); ("App-Version", "0.3.0");
                       ("Contract", contractId); ("Input", text) ]%string)) /\
    (forall rnd rnd',
        createTx_options rnd target winstonQty = createTx_options rnd' target winstonQty
        <-> Str.slice_last 4 rnd = Str.slice_last 4 rnd').
Proof.
  intros w h wallet contractId input tags target winstonQty Hin.
  split; [ | split; [ | intros; apply createTx_options_same]];
    rewrite run_createTx, Hin; cbn zeta.
  - intros Hw.
    destruct (Hw h MathRandom) as [rnd ->].
    destruct (Hw (h ++ [MathRandom])
                (CreateTransaction (createTx_options rnd target winstonQty) wallet))
      as [created ->].
    match goal with
    | |- context [w ?h' (TransactionsSign ?t wallet)] =>
        destruct (Hw h' (TransactionsSign t wallet)) as [signed ->]
    end.
    eauto.
  - intros h' tx.
    destruct (w h MathRandom) as [rnd | reason] eqn:Hr; [ | discriminate ].
    destruct (w (h ++ [MathRandom])
                (CreateTransaction (createTx_options rnd target winstonQty) wallet))
      as [created | reason] eqn:Hc; [ | discriminate ].
    destruct (w _ (TransactionsSign _ wallet)) as [signed | reason]; [ | discriminate ].
    intros [= _ <-]. exists rnd, created, (item input).
    split; [reflexivity | ]. split; [exact Hc | ].
    split; [apply createTx_options_data | ].
    split; [apply slice_last_length | ].
    split; [reflexivity | ].
    split; [now apply truthy_stringify | ].
    split; [intros Hj; apply (JSON_parse_stringify _ _ Hj), json_stringify, Hj | ].
    assert (Htags : fixed_tags contractId input
                    = [ ("App-Name", "SmartWeaveAction"); ("App-Version", "0.3.0");
                        ("Contract", contractId); ("Input", item input) ]%string).
    { unfold fixed_tags. now rewrite (truthy_stringify _ Hin). }
    rewrite <- Htags. split; [reflexivity | ].
    apply Forall_forall. intros tag Htag. cbn [tx_tags setSignature with_tags].
    apply in_or_app. now right.
Qed.

Lemma createTx_tags_and_nonce_witness :
  exists h' tx,
    run Sample.total_world []
      (createTx Sample.wallet "c1" Sample.transfer [("X", "1")]%string "" "")
    = (h', Returned tx)
    /\ tx_data tx = "3456"%string
    /\ tx_tags tx
       = [ ("X", "1"); ("App-Name", "SmartWeaveAction"); ("App-Version", "0.3.0");
           ("Contract", "c1"); ("Input", Sample.transfer_text) ]%string
    /\ JSON_parse Sample.transfer_text = Some Sample.transfer.
Proof.
  destruct (createTx_tags_and_nonce Sample.total_world [] Sample.wallet "c1"%string
              Sample.transfer [("X", "1")]%string ""%string ""%string eq_refl)
    as (Hreturns & Hcarries & _).
  destruct (Hreturns total_world_answers) as (h' & tx & Hrun).
  exists h', tx. split; [exact Hrun | ].
  destruct (Hcarries h' tx Hrun)
    as (rnd & created & text & Hr & Hc & _ & _ & Hdata & Htext & Hparse & Htags & _).
  injection Hr as <-. injection Hc as <-. injection Htext as <-.
  split; [exact Hdata | ]. split; [exact Htags | ].
  apply Hparse. apply json_obj; [ | reflexivity | reflexivity].
  repeat constructor.
Defined.

(** ** String to number conversion *)

(** *** White space *)

Lemma white_space_shorter (l r : list ascii) :
  Number.white_space l = Some r -> length r < length l.
Proof.
  unfold Number.white_space.
  destruct l as [ | c r0]; [discriminate | ].
  destruct (Number.ascii_white_space c); [intros [= <-]; cbn; lia | ].
  destruct r0 as [ | d r1]; [discriminate | ].
  destruct (_ && _); [intros [= <-]; cbn; lia | ].
  destruct r1 as [ | e r2]; [discriminate | ].
  destruct (Number.white_space_of_three _ _ _); [intros [= <-]; cbn; lia | discriminate].
Qed.

Lemma skip_white_fuel (n : nat) :
  forall l fuel, length l <= n -> length l <= fuel ->
                 Number.skip_white fuel l = Number.skip_white n l.
Proof.
  induction n as [ | n IH]; intros l fuel Hn Hf.
  - destruct l; [ | cbn in Hn; lia]. destruct fuel; reflexivity.
  - destruct fuel as [ | fuel].
    + destruct l; [reflexivity | cbn in Hf; lia].
    + cbn [Number.skip_white].
      destruct (Number.white_space l) as [r | ] eqn:E; [ | reflexivity].
      apply white_space_shorter in E. apply IH; lia.
Qed.

Lemma trim_left_unfold (l : list ascii) :
  Number.trim_left l
  = match Number.white_space l with
    | Some r => Number.trim_left r
    | None => l
    end.
Proof.
  unfold Number.trim_left. destruct l as [ | c l]; [reflexivity | ].
  cbn [length Number.skip_white].
  destruct (Number.white_space (c :: l)) as [r | ] eqn:E; [ | reflexivity].
  apply white_space_shorter in E. cbn [length] in E.
  apply skip_white_fuel; lia.
Qed.

Lemma is_white_space_chars (character : list ascii) :
  Numeric.is_white_space character ->
  In character (map (map ascii_of_nat) Numeric.white_space_encodings).
Proof.
  unfold Numeric.is_white_space. intros H.
  apply (in_map (map ascii_of_nat)) in H.
  rewrite map_map in H.
  rewrite (map_ext _ (fun c => c)) in H by apply ascii_nat_embedding.
  now rewrite map_id in H.
Qed.

Lemma white_space_character (character r : list ascii) :
  Numeric.is_white_space character ->
  Number.white_space (character ++ r) = Some r.
Proof.
  intros H. apply is_white_space_chars in H. cbn in H.
  repeat (destruct H as [H | H]; [subst character; reflexivity | ]).
  destruct H.
Qed.

Lemma white_space_inv (l r : list ascii) :
  Number.white_space l = Some r ->
  exists character, Numeric.is_white_space character /\ l = character ++ r.
Proof.
  unfold Number.white_space, Numeric.is_white_space.
  destruct l as [ | c r0]; [discriminate | ].
  destruct (Number.ascii_white_space c) eqn:Ec.
  { intros [= <-]. exists [c]. split; [ | reflexivity].
    unfold Number.ascii_white_space in Ec. cbn [map].
    remember (nat_of_ascii c) as a eqn:Ea. clear Ea.
    rewrite orb_true_iff, andb_true_iff, !Nat.leb_le, Nat.eqb_eq in Ec.
    assert (H : a = 9 \/ a = 10 \/ a = 11 \/ a = 12 \/ a = 13 \/ a = 32) by lia.
    decompose [or] H; subst a; cbn; auto 30. }
  destruct r0 as [ | d r1]; [discriminate | ].
  destruct (_ && _) eqn:Ed.
  { intros [= <-]. exists [c; d]. split; [ | reflexivity].
    rewrite andb_true_iff, !Nat.eqb_eq in Ed. destruct Ed as [E1 E2].
    cbn [map]. rewrite E1, E2. cbn; auto 30. }
  destruct r1 as [ | e r2]; [discriminate | ].
  destruct (Number.white_space_of_three _ _ _) eqn:Ee; [ | discriminate].
  intros [= <-]. exists [c; d; e]. split; [ | reflexivity].
  unfold Number.white_space_of_three in Ee. cbn [map].
  remember (nat_of_ascii c) as x eqn:Ex. clear Ex.
  remember (nat_of_ascii d) as y eqn:Ey. clear Ey.
  remember (nat_of_ascii e) as z eqn:Ez. clear Ez.
  repeat rewrite ?orb_true_iff, ?andb_true_iff, ?Nat.leb_le, ?Nat.eqb_eq in Ee.
  assert (H : (x = 225 /\ y = 154 /\ z = 128) \/
              (x = 226 /\ y = 128 /\
               (z = 128 \/ z = 129 \/ z = 130 \/ z = 131 \/ z = 132 \/ z = 133 \/
                z = 134 \/ z = 135 \/ z = 136 \/ z = 137 \/ z = 138 \/
                z = 168 \/ z = 169 \/ z = 175)) \/
              (x = 226 /\ y = 129 /\ z = 159) \/
              (x = 227 /\ y = 128 /\ z = 128) \/
              (x = 239 /\ y = 187 /\ z = 191)) by lia.
  decompose [and or] H; subst x y z; cbn; auto 40.
Qed.

Lemma trim_left_white (pre l : list ascii) :
  Numeric.white pre -> Number.trim_left (pre ++ l) = Number.trim_left l.
Proof.
  induction 1 as [ | character pre Hc _ IH]; [reflexivity | ].
  rewrite <- app_assoc, trim_left_unfold, (white_space_character _ _ Hc).
  exact IH.
Qed.

Lemma trim_left_inv_len (n : nat) :
  forall l, length l <= n ->
    exists pre, Numeric.white pre /\ l = pre ++ Number.trim_left l /\
                Number.white_space (Number.trim_left l) = None.
Proof.
  induction n as [ | n IH]; intros l Hl.
  - destruct l; [ | cbn in Hl; lia]. exists []. repeat split. constructor.
  - rewrite trim_left_unfold.
    destruct (Number.white_space l) as [r | ] eqn:E.
    + destruct (white_space_inv _ _ E) as (character & Hc & ->).
      apply white_space_shorter in E.
      destruct (IH r ltac:(lia)) as (pre & Hpre & Hr & Hnone).
      exists (character ++ pre). split; [now constructor | ].
      split; [ | exact Hnone]. rewrite <- app_assoc. now rewrite <- Hr.
    + exists []. repeat split; [constructor | exact E].
Qed.

Lemma trim_left_inv (l : list ascii) :
  exists pre, Numeric.white pre /\ l = pre ++ Number.trim_left l /\
              Number.white_space (Number.trim_left l) = None.
Proof. exact (trim_left_inv_len (length l) l (le_n _)). Qed.

Lemma trim_left_solid (l : list ascii) :
  Number.white_space l = None -> Number.trim_left l = l.
Proof. intros H. now rewrite trim_left_unfold, H. Qed.

Lemma is_white_iff (l : list ascii) : Number.is_white l = true <-> Numeric.white l.
Proof.
  unfold Number.is_white. split.
  - destruct (trim_left_inv l) as (pre & Hpre & Hl & _).
    destruct (Number.trim_left l); [ | discriminate].
    intros _. rewrite Hl, app_nil_r. exact Hpre.
  - intros H. rewrite <- (app_nil_r l), (trim_left_white _ _ H). reflexivity.
Qed.


Lemma white_space_solid (c : ascii) (l : list ascii) :
  solid c -> Number.white_space (c :: l) = None.
Proof.
  unfold solid, Number.white_space, Number.ascii_white_space, Number.white_space_of_three.
  intros H. remember (nat_of_ascii c) as a eqn:Ea. clear Ea.
  replace (Nat.leb 9 a && Nat.leb a 13 || Nat.eqb a 32) with false.
  2:{ symmetry. rewrite orb_false_iff, andb_false_iff, !Nat.leb_gt, Nat.eqb_neq. lia. }
  destruct l as [ | d l]; [reflexivity | ].
  replace (Nat.eqb a 194) with false by (symmetry; apply Nat.eqb_neq; lia).
  cbn [andb]. destruct l as [ | e l]; [reflexivity | ].
  replace (Nat.eqb a 225) with false by (symmetry; apply Nat.eqb_neq; lia).
  replace (Nat.eqb a 226) with false by (symmetry; apply Nat.eqb_neq; lia).
  replace (Nat.eqb a 227) with false by (symmetry; apply Nat.eqb_neq; lia).
  replace (Nat.eqb a 239) with false by (symmetry; apply Nat.eqb_neq; lia).
  reflexivity.
Qed.

Lemma trim_left_solid_head (c : ascii) (l : list ascii) :
  solid c -> Number.trim_left (c :: l) = c :: l.
Proof. intros H. apply trim_left_solid, white_space_solid, H. Qed.

Lemma trim_right_solid (lit post : list ascii) :
  Forall solid lit -> Numeric.white post -> Number.trim_right (lit ++ post) = lit.
Proof.
  intros Hlit Hpost. induction Hlit as [ | c lit Hc _ IH].
  - cbn [app]. apply is_white_iff in Hpost.
    destruct post; cbn [Number.trim_right]; now rewrite ?Hpost.
  - cbn [app Number.trim_right]. unfold Number.is_white.
    rewrite (trim_left_solid_head _ _ Hc). now rewrite IH.
Qed.

Lemma trim_solid (pre lit post : list ascii) :
  Numeric.white pre -> Forall solid lit -> Numeric.white post ->
  Number.trim (pre ++ lit ++ post) = lit.
Proof.
  intros Hpre Hlit Hpost. unfold Number.trim. rewrite (trim_left_white _ _ Hpre).
  destruct Hlit as [ | c lit Hc Hlit].
  - cbn [app]. apply is_white_iff in Hpost. unfold Number.is_white in Hpost.
    destruct (Number.trim_left post); [reflexivity | discriminate].
  - cbn [app]. rewrite (trim_left_solid_head _ _ Hc).
    apply (trim_right_solid (c :: lit)); [now constructor | exact Hpost].
Qed.


Section Conversion.

Local Open Scope Z_scope.

(** *** Digits and numerals *)

Lemma digit_in_iff (base : Z) (c : ascii) (d : Z) :
  base <= 16 -> Number.digit_in base c = Some d <-> Numeric.digit base c d.
Proof.
  intros Hb. unfold Number.digit_in, Numeric.digit.
  remember (Z.of_nat (nat_of_ascii c)) as n eqn:En.
  assert (Hn : 0 <= n) by lia. clear En.
  destruct ((48 <=? n) && (n <=? 57)) eqn:E1.
  { apply andb_true_iff in E1. destruct E1 as [H1 H2].
    apply Z.leb_le in H1, H2.
    destruct (n - 48 <? base) eqn:E; [apply Z.ltb_lt in E | apply Z.ltb_ge in E];
      (split; [intros [= <-] | intros H]); try (f_equal; lia); lia. }
  apply andb_false_iff in E1. rewrite !Z.leb_gt in E1.
  destruct ((97 <=? n) && (n <=? 102)) eqn:E2.
  { apply andb_true_iff in E2. destruct E2 as [H1 H2].
    apply Z.leb_le in H1, H2.
    destruct (n - 87 <? base) eqn:E; [apply Z.ltb_lt in E | apply Z.ltb_ge in E];
      (split; [intros [= <-] | intros H]); try (f_equal; lia); lia. }
  apply andb_false_iff in E2. rewrite !Z.leb_gt in E2.
  destruct ((65 <=? n) && (n <=? 70)) eqn:E3.
  { apply andb_true_iff in E3. destruct E3 as [H1 H2].
    apply Z.leb_le in H1, H2.
    destruct (n - 55 <? base) eqn:E; [apply Z.ltb_lt in E | apply Z.ltb_ge in E];
      (split; [intros [= <-] | intros H]); try (f_equal; lia); lia. }
  apply andb_false_iff in E3. rewrite !Z.leb_gt in E3.
  destruct (99 <? base) eqn:E; [apply Z.ltb_lt in E | apply Z.ltb_ge in E];
    (split; [intros [= <-] | intros H]); try (f_equal; lia); lia.
Qed.


Lemma digits_inv (base : Z) (l : list ascii) :
  base <= 16 ->
  forall acc count v n rest,
    Number.digits base acc count l = (v, n, rest) ->
    exists pre ds,
      l = pre ++ rest /\ Forall2 (Numeric.digit base) pre ds /\
      v = fold_left (fun a d => a * base + d) ds acc /\
      n = (count + length pre)%nat /\ stops base rest.
Proof.
  intros Hb. induction l as [ | c l IH]; intros acc count v n rest.
  - cbn. intros [= <- <- <-]. exists [], []. repeat split; [constructor | cbn; lia].
  - cbn [Number.digits]. destruct (Number.digit_in base c) as [d | ] eqn:E.
    + intros H. apply IH in H. destruct H as (pre & ds & -> & Hpre & -> & -> & Hs).
      exists (c :: pre), (d :: ds). repeat split; try assumption.
      * constructor; [now apply digit_in_iff | exact Hpre].
      * cbn [length]. lia.
    + intros [= <- <- <-]. exists [], []. repeat split; [constructor | cbn; lia | exact E].
Qed.


Lemma digits_numeral (base : Z) (l : list ascii) (v : Z) (n : nat) :
  base <= 16 -> Number.digits base 0 0 l = (v, S n, []) -> Numeric.numeral base l v.
Proof.
  intros Hb H. apply (digits_inv _ _ Hb) in H.
  destruct H as (pre & ds & -> & Hpre & -> & Hn & _).
  rewrite app_nil_r. exists ds. repeat split; [ | exact Hpre].
  intros ->. inversion Hpre. subst pre. discriminate.
Qed.

(** *** Literals *)

Lemma is_char_eq (n : nat) (c : ascii) :
  Number.is_char n c = true -> c = ascii_of_nat n.
Proof.
  unfold Number.is_char. intros H. apply Nat.eqb_eq in H.
  now rewrite <- H, ascii_nat_embedding.
Qed.


Lemma is_char_indicator (i : ascii) :
  Number.is_char 101 i || Number.is_char 69 i = true -> Numeric.indicator i.
Proof.
  intros H. apply orb_true_iff in H. destruct H as [H | H]; apply is_char_eq in H.
  - now left.
  - now right.
Qed.




Lemma exponent_sound (neg : bool) (mant : Z) (frac : nat) (l : list ascii) :
  match Number.exponent neg mant frac l with
  | Number.NaN => True
  | Number.Infinite _ => False
  | Number.Finite n m e =>
      n = neg /\ m = mant /\
      exists e0, Numeric.exponent_part l e0 /\ e = e0 - Z.of_nat frac
  end.
Proof.
  unfold Number.exponent. destruct l as [ | c r].
  - repeat split. exists 0. split; [constructor | reflexivity].
  - destruct (Number.is_char 101 c || Number.is_char 69 c) eqn:Ec; [ | exact I].
    apply is_char_indicator in Ec.
    assert (Hplain : forall r1,
               match Number.digits 10 0 0 r1 with
               | (e, S _, []) => Numeric.numeral 10 r1 e
               | _ => True
               end).
    { intros r1. destruct (Number.digits 10 0 0 r1) as [[e [ | n]] [ | ? ?]] eqn:E;
        try exact I. apply (digits_numeral _ _ _ n); [lia | exact E]. }
    destruct r as [ | s r'].
    + cbn. exact I.
    + destruct (Number.is_char 45 s) eqn:E45.
      { apply is_char_eq in E45. subst s. specialize (Hplain r').
        destruct (Number.digits 10 0 0 r') as [[e [ | n]] [ | ? ?]]; try exact I.
        repeat split. exists (- e). split; [now constructor | reflexivity]. }
      destruct (Number.is_char 43 s) eqn:E43.
      { apply is_char_eq in E43. subst s. specialize (Hplain r').
        destruct (Number.digits 10 0 0 r') as [[e [ | n]] [ | ? ?]]; try exact I.
        repeat split. exists e. split; [now constructor | reflexivity]. }
      specialize (Hplain (s :: r')).
      destruct (Number.digits 10 0 0 (s :: r')) as [[e [ | n]] [ | ? ?]]; try exact I.
      repeat split. exists e. split; [now constructor | reflexivity].
Qed.





Lemma unsigned_decimal_sound (neg : bool) (l : list ascii) :
  match Number.unsigned_decimal neg l with
  | Number.NaN => True
  | Number.Infinite n => n = neg /\ l = list_ascii_of_string "Infinity"
  | Number.Finite n m e => n = neg /\ Numeric.decimal_literal l m e
  end.
Proof.
  unfold Number.unsigned_decimal.
  destruct (list_eq_dec ascii_dec l (list_ascii_of_string "Infinity")) as [E | _];
    [now split | ].
  destruct (Number.digits 10 0 0 l) as [[ip n1] r1] eqn:E1.
  apply digits_inv in E1; [ | lia].
  destruct E1 as (pre1 & ds1 & -> & H1 & -> & -> & Hs). cbn [Nat.add].
  assert (Hnum : forall n, length pre1 = S n ->
                           Numeric.numeral 10 pre1 (fold_left (fun a d => a * 10 + d) ds1 0)).
  { intros n Hn. exists ds1. repeat split; [ | exact H1].
    intros ->. inversion H1. subst. discriminate. }
  destruct r1 as [ | c r2].
  - destruct (length pre1) eqn:En; [exact I | ].
    split; [reflexivity | ].
    apply Numeric.decimal_whole; [now apply (Hnum n) | constructor].
  - destruct (Number.is_char 46 c) eqn:Ec.
    + apply is_char_eq in Ec. subst c.
      destruct (Number.digits 10 _ 0 r2) as [[m n2] r3] eqn:E2.
      apply digits_inv in E2; [ | lia].
      destruct E2 as (pre2 & ds2 & -> & H2 & -> & -> & _). cbn [Nat.add].
      assert (Hboth : (length pre1 <> 0 \/ length pre2 <> 0)%nat ->
                match Number.exponent neg (fold_left (fun a d => a * 10 + d) ds2
                                             (fold_left (fun a d => a * 10 + d) ds1 0))
                        (length pre2) r3 with
                | Number.NaN => True
                | Number.Infinite n => n = neg /\ pre1 ++ "."%char :: pre2 ++ r3 = list_ascii_of_string "Infinity"
                | Number.Finite n m e =>
                    n = neg /\ Numeric.decimal_literal (pre1 ++ "."%char :: pre2 ++ r3) m e
                end).
      { intros Hne. pose proof (exponent_sound neg (fold_left (fun a d => a * 10 + d) ds2
                                             (fold_left (fun a d => a * 10 + d) ds1 0))
                                  (length pre2) r3) as He.
        destruct (Number.exponent _ _ _ r3) as [ | ? | n m e]; [exact I | destruct He | ].
        destruct He as (-> & -> & e0 & He0 & ->). split; [reflexivity | ].
        apply Numeric.decimal_point; [ | exact He0].
        exists (ds1 ++ ds2). repeat split.
        - intros Hnil. apply app_eq_nil in Hnil. destruct Hnil as [-> ->].
          inversion H1. inversion H2. subst. cbn in Hne. lia.
        - now apply Forall2_app.
        - unfold Numeric.value_of. now rewrite fold_left_app. }
      destruct (length pre1) eqn:En1.
      * destruct (length pre2) eqn:En2; [exact I | ]. apply Hboth. lia.
      * apply Hboth. lia.
    + destruct (length pre1) eqn:En; [exact I | ].
      pose proof (exponent_sound neg (fold_left (fun a d => a * 10 + d) ds1 0) 0 (c :: r2)) as He.
      destruct (Number.exponent _ _ _ (c :: r2)) as [ | ? | n' m e]; [exact I | destruct He | ].
      destruct He as (-> & -> & e0 & He0 & ->). split; [reflexivity | ].
      cbn [Z.of_nat]. rewrite Z.sub_0_r.
      apply Numeric.decimal_whole; [now apply (Hnum n) | exact He0].
Qed.


Lemma gt0_negative (l : list ascii) :
  Number.gt0 (Number.unsigned_decimal true l) = false.
Proof.
  pose proof (unsigned_decimal_sound true l) as H.
  destruct (Number.unsigned_decimal true l) as [ | n | n m e]; [reflexivity | | ].
  - destruct H as [-> _]. reflexivity.
  - destruct H as [-> _]. reflexivity.
Qed.









(** *** The conversion and the grammar *)









End Conversion.

(** ** Target and quantity *)


(** The target alone is attached whenever it is not empty. *)
Lemma createTx_options_target (rnd target winstonQty : string) :
  opt_target (createTx_options rnd target winstonQty)
  = if nonempty target then Some target else None.
Proof.
  unfold createTx_options. destruct (nonempty target); [ | reflexivity ].
  destruct (nonempty winstonQty && _); reflexivity.
Qed.







(** ** Taking a run apart *)

Lemma run_bind_inv {A B : Type} (w : World) (m : Prog A) (f : A -> Prog B) h h' b :
  run w h (bind m f) = (h', Returned b) ->
  exists h1 a, run w h m = (h1, Returned a) /\ run w h1 (f a) = (h', Returned b).
Proof.
  rewrite run_bind. destruct (run w h m) as [h1 [a | e]]; [eauto | discriminate].
Qed.

Lemma run_call_inv (w : World) (op : Op) h h' (r : Resp op) :
  run w h (call op) = (h', Returned r) -> w h op = Ok r /\ h' = h ++ [op].
Proof.
  unfold call. cbn [run]. destruct (w h op) as [r' | reason]; cbn [run].
  - intros [= <- <-]. auto.
  - discriminate.
Qed.

Lemma run_Ret_inv {A : Type} (w : World) (a a' : A) h h' :
  run w h (Ret a) = (h', Returned a') -> h' = h /\ a' = a.
Proof. cbn [run]. intros [= <- <-]. auto. Qed.

Create HintDb awaited.

#[local] Hint Unfold
  arweave.transactions_get arweave.transactions_post arweave.transactions_sign
  arweave.createTransaction arweave.wallets_getAddress arweave.network_getInfo
  readContract execute Math_random_toString new_SmartWeaveGlobal new_Function
  call_Function : awaited.

(** Inversion of a run that returned: [bind_inv H h a H1] splits a bind,
    [call_inv H] reads a call and its answer. *)
Ltac bind_inv H h a H1 :=
  apply run_bind_inv in H as (h & a & H1 & H).

Ltac call_inv H :=
  autounfold with awaited in H;
  match type of H with
  | run ?w _ (call ?op) = _ =>
      let E := fresh "E" in
      apply (run_call_inv w op) in H as [H E]; try subst
  end.

Lemma never_throws_returns {A : Type} (w : World) (p : Prog A) :
  answers w -> never_throws p -> forall h, exists h' a, run w h p = (h', Returned a).
Proof.
  intros Hw. induction 1 as [a | e [] | op k Hk IH]; intros h; cbn [run].
  - eauto.
  - destruct (Hw h op) as [r ->]. apply IH.
Qed.

Ltac split_throws :=
  unfold never_throws; autounfold with flows;
  repeat first
    [ apply Throws_Ret
    | apply Throws_Vis; intros ?
    | apply Throws_bind; [ | intros ? ]
    | match goal with
      | |- Throws _ (if ?b then _ else _) => destruct b
      | |- Throws _ (match ?x with _ => _ end) => destruct x
      end ].

Lemma loadContract_never_throws (contractID : string) :
  never_throws (loadContract contractID).
Proof. split_throws. Qed.

Lemma createTx_never_throws wallet contractId input tags target winstonQty :
  truthy input = true ->
  never_throws (createTx wallet contractId input tags target winstonQty).
Proof. intros H. unfold createTx. rewrite H. split_throws. Qed.

(** ** The loader *)

Lemma getTag_tag_of (tx : Transaction) (name : string) :
  getTag tx name =
  match tag_of tx name with
  | Some v => JStr v
  | None => JBool false
  end.
Proof.
  unfold getTag, tag_of. induction (tx_tags tx) as [| [n v] ts IH]; cbn.
  - reflexivity.
  - destruct (String.eqb n name); [reflexivity | exact IH].
Qed.

Lemma getTag_has_tag (tx : Transaction) (name value : string) :
  has_tag tx name value ->
  getTag tx name = JStr value /\ truthy (getTag tx name) = true.
Proof.
  intros [Hv Hne]. rewrite getTag_tag_of, Hv. split; [reflexivity | ].
  cbn. destruct (String.eqb_spec value EmptyString); [contradiction | reflexivity].
Qed.

Lemma getTag_lacks_tag (tx : Transaction) (name : string) :
  lacks_tag tx name -> truthy (getTag tx name) = false.
Proof. intros [H | H]; rewrite getTag_tag_of, H; reflexivity. Qed.

(** C4, counterexample.  The defining transaction has an Init-State tag,
    with the empty string for its value, and an Init-State-TX tag: the
    loader takes the payload of the referenced transaction, not the value
    of the Init-State tag. *)
Lemma loadContract_empty_Init_State :
  let defining :=
    Sample.mkTx "c1" "{}"
      [("Contract-Src", "s1"); ("Init-State", ""); ("Init-State-TX", "i1")]%string in
  tag_of defining "Init-State" = Some ""%string
  /\ exists h record,
       run (Sample.world_with defining 200) [] (loadContract "c1") = (h, Returned record)
       /\ initState record = JStr "{x:1}".
Proof.
  split; [reflexivity | ].
  eexists. eexists. split; reflexivity.
Qed.

(** C4, amended.  When [loadContract] returns, the record holds the
    defining transaction that the ledger gave for the contract id, and its
    initial state follows this order: the value of the Init-State tag when
    the defining transaction has one that is not empty; otherwise the
    payload of the transaction that the Init-State-TX tag names, when it
    has one that is not empty; otherwise the payload of the defining
    transaction.  [loadContract] returns whenever its calls are answered. *)
Theorem loadContract_initial_state :
  forall (w : World) contractID,
    (answers w ->
     exists h record, run w [] (loadContract contractID) = (h, Returned record)) /\
    (forall h record,
        run w [] (loadContract contractID) = (h, Returned record) ->
        let defining := contractTX record in
        let fetched :=
          [TransactionsGet (JStr contractID);
           TransactionsGet (getTag defining "Contract-Src")] in
        w [] (TransactionsGet (JStr contractID)) = Ok defining /\
        (forall v, has_tag defining "Init-State" v -> initState record = JStr v) /\
        (lacks_tag defining "Init-State" ->
         forall v, has_tag defining "Init-State-TX" v ->
           exists stateTX,
             w fetched (TransactionsGet (JStr v)) = Ok stateTX /\
             initState record = JStr (tx_data stateTX)) /\
        (lacks_tag defining "Init-State" ->
         lacks_tag defining "Init-State-TX" ->
         initState record = JStr (tx_data defining))).
Proof.
  intros w contractID. split.
  - intros Hw. apply never_throws_returns; [exact Hw | apply loadContract_never_throws].
  - intros h record Hrun. unfold loadContract in Hrun.
    bind_inv Hrun h1 defining Hget. call_inv Hget.
    bind_inv Hrun h2 srcTX Hsrc. call_inv Hsrc.
    bind_inv Hrun h3 st Hstate.
    bind_inv Hrun h4 env Henv.
    apply run_Ret_inv in Hrun as [-> ->].
    cbn [contractTX initState app].
    split; [exact Hget | ].
    split; [ | split ].
    + intros v Hv. apply getTag_has_tag in Hv as [Hval Htrue].
      rewrite Htrue in Hstate. apply run_Ret_inv in Hstate as [_ ->]. exact Hval.
    + intros Hno v Hv.
      apply getTag_lacks_tag in Hno. apply getTag_has_tag in Hv as [Hval Htrue].
      rewrite Hno, Htrue in Hstate.
      bind_inv Hstate h5 stateTX Hst. call_inv Hst.
      apply run_Ret_inv in Hstate as [_ ->].
      rewrite Hval in Hst. exists stateTX. split; [exact Hst | reflexivity].
    + intros Hno Hno'.
      apply getTag_lacks_tag in Hno. apply getTag_lacks_tag in Hno'.
      rewrite Hno, Hno' in Hstate.
      apply run_Ret_inv in Hstate as [_ ->]. reflexivity.
Qed.

Lemma loadContract_initial_state_witness :
  exists h record,
    run Sample.world [] (loadContract "c1") = (h, Returned record)
    /\ initState record = JStr "{}".
Proof.
  eexists. eexists. split; [reflexivity | ].
  refine (proj1 (proj2 (proj2 (loadContract_initial_state Sample.world "c1"%string)
                          _ _ eq_refl))
            "{}"%string _).
  split; [reflexivity | discriminate].
Defined.

(** ** The simulating flows *)

Lemma default_param_given (d v : JsVal) : v <> JUndefined -> default_param d v = v.
Proof. destruct v; intros H; try reflexivity. now elim H. Qed.

(** In a world that answers every call, [answer_call Hw] replaces the run
    of the next call by its answer. *)
Ltac answer_call Hw :=
  autounfold with awaited; unfold call; cbn [run bind];
  match goal with
  | |- context [match ?w ?h ?op with Ok _ => _ | Fail _ => _ end] =>
      let r := fresh "r" in
      let E := fresh "E" in
      destruct (Hw h op) as [r E]; rewrite E; cbn [run bind]
  end.

Lemma run_install_record (w : World) h record activeTx :
  answers w ->
  run w h (install_activeTx (InfoRecord record) activeTx)
  = (h ++ [SetActiveTx (TargetGlobal (swGlobal record)) activeTx], Returned tt).
Proof.
  intros Hw. unfold install_activeTx, info_swGlobal, set_activeTx. cbn [bind].
  answer_call Hw. now destruct r.
Qed.

(** The write dry run, when the three optional arguments are given as
    falsy values and the input is truthy. *)
Lemma run_interactWriteDryRun_resolving (w : World) wallet contractId input tags
    target winstonQty myState fromParam v :
  answers w -> truthy input = true ->
  falsy_given myState -> falsy_given fromParam -> falsy_given v ->
  exists h1 record st addr info h5 built r,
    run w [] (loadContract contractId) = (h1, Returned record) /\
    w h1 (ReadContract contractId) = Ok st /\
    w (h1 ++ [ReadContract contractId]) (WalletsGetAddress wallet) = Ok addr /\
    run w (h1 ++ [ReadContract contractId; WalletsGetAddress wallet; NetworkGetInfo])
      (createTx wallet contractId input tags target winstonQty)
    = (h5, Returned built) /\
    run w []
      (interactWriteDryRun wallet contractId input tags target winstonQty
         myState fromParam (InfoValue v))
    = (h5 ++ [SetActiveTx (TargetGlobal (swGlobal record))
                (dummyActiveTx built (JStr addr) info);
              Execute (HandlerFn (handler record))
                {| input := input; caller := JStr addr |} st],
       Returned r).
Proof.
  intros Hw Hin [Hs Hs'] [Hf Hf'] [Hv Hv'].
  unfold interactWriteDryRun, default_info.
  rewrite !default_param_given by assumption. cbn [info_truthy].
  rewrite Hs, Hf, Hv.
  destruct (never_throws_returns w _ Hw (loadContract_never_throws contractId) [])
    as (h1 & record & Hload).
  rewrite !run_bind, Hload. cbn [run].
  answer_call Hw. rename r into st, E into Hst.
  answer_call Hw. rename r into addr, E into Haddr.
  answer_call Hw. rename r into info.
  rewrite <- !app_assoc. cbn [app].
  destruct (never_throws_returns w _ Hw
              (createTx_never_throws wallet contractId input tags target winstonQty Hin)
              (h1 ++ [ReadContract contractId; WalletsGetAddress wallet; NetworkGetInfo]))
    as (h5 & built & Hbuilt).
  rewrite run_bind, Hbuilt.
  rewrite run_bind, run_install_record by assumption.
  cbn [info_handler bind].
  answer_call Hw.
  rewrite <- !app_assoc. cbn [app].
  exists h1, record, st, addr, info, h5, built, r. auto.
Qed.

(** The custom dry run, when the state and the contract record are given
    as falsy values: the caller is the argument as it is. *)
Lemma run_interactWriteDryRunCustom_resolving (w : World) tx contractId input
    myState fromParam v :
  answers w -> falsy_given myState -> falsy_given v ->
  exists h1 record st info r,
    run w [] (loadContract contractId) = (h1, Returned record) /\
    w h1 (ReadContract contractId) = Ok st /\
    run w []
      (interactWriteDryRunCustom tx contractId input myState fromParam (InfoValue v))
    = (h1 ++ [ReadContract contractId; NetworkGetInfo;
              SetActiveTx (TargetGlobal (swGlobal record))
                (dummyActiveTx tx (default_param (JObj []) fromParam) info);
              Execute (HandlerFn (handler record))
                {| input := input; caller := default_param (JObj []) fromParam |} st],
       Returned r).
Proof.
  intros Hw [Hs Hs'] [Hv Hv'].
  unfold interactWriteDryRunCustom, default_info.
  rewrite (default_param_given _ myState), (default_param_given _ v) by assumption.
  cbn [info_truthy]. rewrite Hs, Hv.
  destruct (never_throws_returns w _ Hw (loadContract_never_throws contractId) [])
    as (h1 & record & Hload).
  rewrite !run_bind, Hload. cbn [run].
  answer_call Hw. rename r into st, E into Hst.
  answer_call Hw. rename r into info.
  rewrite run_bind, run_install_record by assumption.
  cbn [info_handler bind].
  answer_call Hw.
  rewrite <- !app_assoc. cbn [app].
  exists h1, record, st, info, r. auto.
Qed.



Lemma run_extends {A : Type} (w : World) (p : Prog A) :
  forall h, exists t, fst (run w h p) = h ++ t.
Proof.
  induction p as [a | e | op k IH]; intros h; cbn [run].
  - exists []. now rewrite app_nil_r.
  - exists []. now rewrite app_nil_r.
  - destruct (w h op) as [r | reason].
    + destruct (IH r (h ++ [op])) as [t Ht]. exists (op :: t).
      rewrite Ht, <- app_assoc. reflexivity.
    + exists [op]. reflexivity.
Qed.

Lemma run_call (w : World) (h : list Op) (op : Op) :
  run w h (call op)
  = match w h op with
    | Ok r => (h ++ [op], Returned r)
    | Fail reason => (h ++ [op], Thrown (Rejected reason))
    end.
Proof. unfold call. cbn [run]. destruct (w h op); reflexivity. Qed.

Lemma run_readContract (w : World) (h : list Op) (contractId : string) :
  run w h (readContract contractId)
  = match w h (ReadContract contractId) with
    | Ok st => (h ++ [ReadContract contractId], Returned st)
    | Fail reason => (h ++ [ReadContract contractId], Thrown (Rejected reason))
    end.
Proof. exact (run_call w h (ReadContract contractId)). Qed.

Lemma run_network_getInfo (w : World) (h : list Op) :
  run w h arweave.network_getInfo
  = match w h NetworkGetInfo with
    | Ok info => (h ++ [NetworkGetInfo], Returned info)
    | Fail reason => (h ++ [NetworkGetInfo], Thrown (Rejected reason))
    end.
Proof. exact (run_call w h NetworkGetInfo). Qed.

Lemma run_installs_and_invokes (w : World) h record st given tx from info :
  run w h
    (bind (install_activeTx (InfoRecord record) (dummyActiveTx tx from info))
       (fun _ =>
          bind (info_handler (InfoRecord record))
            (fun hdl => execute hdl {| input := given; caller := from |} st)))
  = installs_and_invokes w h record st given tx from info.
Proof.
  unfold install_activeTx, info_swGlobal, info_handler, set_activeTx, execute, call,
    installs_and_invokes.
  cbn [bind run].
  destruct (w h _) as [[] | reason]; [ | reflexivity ].
  cbn [bind run]. rewrite <- app_assoc. cbn [app].
  destruct (w _ _) as [r | reason]; reflexivity.
Qed.

(** [fromParam || await arweave.wallets.getAddress(wallet)]. *)
Lemma run_resolve_from (w : World) h wallet (fromParam : JsVal) :
  truthy fromParam = false ->
  run w h (if truthy fromParam then Ret fromParam
           else bind (arweave.wallets_getAddress wallet) (fun a => Ret (JStr a)))
  = match w h (WalletsGetAddress wallet) with
    | Ok addr => (h ++ [WalletsGetAddress wallet], Returned (JStr addr))
    | Fail reason => (h ++ [WalletsGetAddress wallet], Thrown (Rejected reason))
    end.
Proof.
  intros ->. unfold arweave.wallets_getAddress, call. cbn [bind run].
  destruct (w h _); reflexivity.
Qed.

(** The write dry run, call by call, when the contract record and the
    state are given as falsy values. *)
Lemma run_interactWriteDryRun_loading (w : World) wallet contractId given tags
    target winstonQty myState fromParam v :
  falsy_given myState -> falsy_given v ->
  run w []
    (interactWriteDryRun wallet contractId given tags target winstonQty
       myState fromParam (InfoValue v))
  = match run w [] (loadContract contractId) with
    | (h1, Thrown e) => (h1, Thrown e)
    | (h1, Returned record) =>
        match w h1 (ReadContract contractId) with
        | Fail reason => (h1 ++ [ReadContract contractId], Thrown (Rejected reason))
        | Ok st =>
            match run w (h1 ++ [ReadContract contractId])
                    (if truthy (default_param (JObj []) fromParam)
                     then Ret (default_param (JObj []) fromParam)
                     else bind (arweave.wallets_getAddress wallet) (fun a => Ret (JStr a)))
            with
            | (h3, Thrown e) => (h3, Thrown e)
            | (h3, Returned from) =>
                match w h3 NetworkGetInfo with
                | Fail reason => (h3 ++ [NetworkGetInfo], Thrown (Rejected reason))
                | Ok info =>
                    match run w (h3 ++ [NetworkGetInfo])
                            (createTx wallet contractId given tags target winstonQty)
                    with
                    | (h5, Thrown e) => (h5, Thrown e)
                    | (h5, Returned built) =>
                        installs_and_invokes w h5 record st given built from info
                    end
                end
            end
        end
    end.
Proof.
  intros [Hs Hs'] [Hv Hv'].
  unfold interactWriteDryRun, default_info.
  rewrite (default_param_given _ myState), (default_param_given _ v) by assumption.
  cbn [info_truthy]. rewrite Hs, Hv.
  rewrite !run_bind.
  destruct (run w [] (loadContract contractId)) as [h1 [record | e]]; [ | reflexivity ].
  cbn [run]. rewrite run_bind, run_readContract.
  destruct (w h1 (ReadContract contractId)) as [st | reason]; [ | reflexivity ].
  rewrite run_bind.
  destruct (run w (h1 ++ [ReadContract contractId]) _) as [h3 [from | e]];
    [ | reflexivity ].
  rewrite run_bind, run_network_getInfo.
  destruct (w h3 NetworkGetInfo) as [info | reason]; [ | reflexivity ].
  rewrite run_bind.
  destruct (run w (h3 ++ [NetworkGetInfo]) _) as [h5 [built | e]]; [ | reflexivity ].
  apply run_installs_and_invokes.
Qed.

(** The custom dry run, call by call, under the same condition. *)
Lemma run_interactWriteDryRunCustom_loading (w : World) tx contractId given
    myState fromParam v :
  falsy_given myState -> falsy_given v ->
  run w [] (interactWriteDryRunCustom tx contractId given myState fromParam (InfoValue v))
  = match run w [] (loadContract contractId) with
    | (h1, Thrown e) => (h1, Thrown e)
    | (h1, Returned record) =>
        match w h1 (ReadContract contractId) with
        | Fail reason => (h1 ++ [ReadContract contractId], Thrown (Rejected reason))
        | Ok st =>
            let h2 := h1 ++ [ReadContract contractId] in
            match w h2 NetworkGetInfo with
            | Fail reason => (h2 ++ [NetworkGetInfo], Thrown (Rejected reason))
            | Ok info =>
                installs_and_invokes w (h2 ++ [NetworkGetInfo]) record st given tx
                  (default_param (JObj []) fromParam) info
            end
        end
    end.
Proof.
  intros [Hs Hs'] [Hv Hv'].
  unfold interactWriteDryRunCustom, default_info.
  rewrite (default_param_given _ myState), (default_param_given _ v) by assumption.
  cbn [info_truthy]. rewrite Hs, Hv.
  rewrite !run_bind.
  destruct (run w [] (loadContract contractId)) as [h1 [record | e]]; [ | reflexivity ].
  cbn [run]. rewrite run_bind, run_readContract.
  destruct (w h1 (ReadContract contractId)) as [st | reason]; [ | reflexivity ].
  rewrite run_bind, run_network_getInfo. cbn zeta.
  destruct (w (h1 ++ [ReadContract contractId]) NetworkGetInfo) as [info | reason];
    [ | reflexivity ].
  apply run_installs_and_invokes.
Qed.

Lemma installs_and_invokes_extends (w : World) h record st given tx from info :
  exists t, fst (installs_and_invokes w h record st given tx from info) = h ++ t.
Proof.
  unfold installs_and_invokes. destruct (w h _); eexists; reflexivity.
Qed.

Lemma interactWriteDryRunCustom_no_wallet tx contractId input myState fromParam
    contractInfoParam :
  Calls (fun op => is_getAddress op = false)
    (interactWriteDryRunCustom tx contractId input myState fromParam contractInfoParam).
Proof. split_prog; reflexivity. Qed.

(** C3, counterexample.  With the three optional arguments given as
    [null], the custom dry run loads the contract and reads the state, but
    it never asks the wallet: the caller that reaches the handler is still
    [null]. *)
Lemma custom_dry_run_leaves_caller_unresolved :
  let tx := Sample.mkTx "t1" "3456" [] in
  let nulls :=
    interactWriteDryRunCustom tx "c1" Sample.transfer JNull JNull (InfoValue JNull) in
  existsb is_getAddress (trace Sample.world nulls) = false
  /\ exists pre record st,
       run Sample.world [] (loadContract "c1") = (pre, Returned record)
       /\ run Sample.world [] nulls
          = (pre ++ [ReadContract "c1"; NetworkGetInfo;
                     SetActiveTx (TargetGlobal (swGlobal record))
                       (dummyActiveTx tx JNull {| height := 7; current := "blk" |});
                     Execute (HandlerFn (handler record))
                       {| input := Sample.transfer; caller := JNull |} st],
             Returned {| state := st; result := Sample.transfer |}).
Proof.
  cbv zeta. split; [reflexivity | ].
  eexists. eexists. eexists. split; reflexivity.
Qed.

(** C3, amended.  In every world, when the contract record and the state
    are given as falsy values other than [undefined], both dry runs start
    with [loadContract], and fail as it fails; once it has returned a
    record their next call is [readContract], and they fail as it fails.
    Once the state is read, the write dry run, when the caller address is
    such a falsy value too, asks the wallet for the address, then asks for
    the network information and builds the transaction, failing as any of
    these fails, and at last installs the context on the execution
    environment of the record loaded and invokes its handler on the state
    read, with the input and that address.  The custom dry run asks for the
    network information straight after the state, then installs and
    invokes in the same way with the caller argument as it was given: it
    never asks the wallet. *)
Theorem dry_run_resolves_falsy_arguments :
  forall (w : World) wallet tx contractId input tags target winstonQty
         myState fromParam v,
    falsy_given myState -> falsy_given v ->
    let dry :=
      interactWriteDryRun wallet contractId input tags target winstonQty
        myState fromParam (InfoValue v) in
    let custom :=
      interactWriteDryRunCustom tx contractId input myState fromParam (InfoValue v) in
    (forall h1 e,
        run w [] (loadContract contractId) = (h1, Thrown e) ->
        run w [] dry = (h1, Thrown e) /\ run w [] custom = (h1, Thrown e)) /\
    (forall h1 record,
        run w [] (loadContract contractId) = (h1, Returned record) ->
        (exists t, trace w dry = h1 ++ ReadContract contractId :: t) /\
        (exists t, trace w custom = h1 ++ ReadContract contractId :: t) /\
        (forall reason,
            w h1 (ReadContract contractId) = Fail reason ->
            run w [] dry = (h1 ++ [ReadContract contractId], Thrown (Rejected reason)) /\
            run w [] custom = (h1 ++ [ReadContract contractId], Thrown (Rejected reason))) /\
        (forall st,
            w h1 (ReadContract contractId) = Ok st ->
            let h2 := h1 ++ [ReadContract contractId] in
            (falsy_given fromParam ->
             run w [] dry
             = match w h2 (WalletsGetAddress wallet) with
               | Fail reason => (h2 ++ [WalletsGetAddress wallet], Thrown (Rejected reason))
               | Ok addr =>
                   let h3 := h2 ++ [WalletsGetAddress wallet] in
                   match w h3 NetworkGetInfo with
                   | Fail reason => (h3 ++ [NetworkGetInfo], Thrown (Rejected reason))
                   | Ok info =>
                       match run w (h3 ++ [NetworkGetInfo])
                               (createTx wallet contractId input tags target winstonQty)
                       with
                       | (h5, Thrown e) => (h5, Thrown e)
                       | (h5, Returned built) =>
                           installs_and_invokes w h5 record st input built (JStr addr) info
                       end
                   end
               end) /\
            run w [] custom
            = match w h2 NetworkGetInfo with
              | Fail reason => (h2 ++ [NetworkGetInfo], Thrown (Rejected reason))
              | Ok info =>
                  installs_and_invokes w (h2 ++ [NetworkGetInfo]) record st input tx
                    (default_param (JObj []) fromParam) info
              end)) /\
    Forall (fun op => is_getAddress op = false) (trace w custom) /\
    (answers w ->
     (exists r, outcome w custom = Returned r) /\
     (falsy_given fromParam -> truthy input = true ->
      exists r, outcome w dry = Returned r)).
Proof.
  intros w wallet tx contractId input tags target winstonQty myState fromParam v
    Hs Hv dry custom.
  pose proof (run_interactWriteDryRun_loading w wallet contractId input tags target
                winstonQty myState fromParam v Hs Hv) as Hdry.
  pose proof (run_interactWriteDryRunCustom_loading w tx contractId input
                myState fromParam v Hs Hv) as Hcustom.
  fold dry in Hdry. fold custom in Hcustom.
  split; [ | split; [ | split ]].
  - intros h1 e Hload. rewrite Hload in Hdry, Hcustom. now split.
  - intros h1 record Hload. rewrite Hload in Hdry, Hcustom.
    split; [ | split; [ | split ]].
    + unfold trace. rewrite Hdry.
      destruct (w h1 (ReadContract contractId)) as [st | reason]; [ | now exists [] ].
      match goal with
      | |- context [run w ?h ?p] =>
          destruct (run_extends w p h) as [t1 H1]; destruct (run w h p) as [h3 [from | e]]
      end; cbn [fst] in H1; subst h3.
      * destruct (w _ NetworkGetInfo) as [info | reason].
        -- match goal with
           | |- context [run w ?h ?p] =>
               destruct (run_extends w p h) as [t2 H2];
               destruct (run w h p) as [h5 [built | e]]
           end; cbn [fst] in H2; subst h5.
           ++ destruct (installs_and_invokes_extends w
                          (((h1 ++ [ReadContract contractId]) ++ t1) ++ [NetworkGetInfo] ++ t2)
                          record st input built from info) as [t3 H3].
              rewrite <- !app_assoc in *. rewrite H3. cbn [app]. eexists; reflexivity.
           ++ cbn [fst]. rewrite <- !app_assoc. cbn [app]. eexists; reflexivity.
        -- cbn [fst]. rewrite <- !app_assoc. cbn [app]. eexists; reflexivity.
      * cbn [fst]. rewrite <- !app_assoc. cbn [app]. eexists; reflexivity.
    + unfold trace. rewrite Hcustom.
      destruct (w h1 (ReadContract contractId)) as [st | reason]; [ | now exists [] ].
      cbn zeta. destruct (w _ NetworkGetInfo) as [info | reason].
      * match goal with
        | |- context [installs_and_invokes w ?h ?r ?s ?i ?x ?f ?n] =>
            destruct (installs_and_invokes_extends w h r s i x f n) as [t3 H3]
        end.
        rewrite H3, <- !app_assoc. cbn [app]. eexists; reflexivity.
      * cbn [fst]. rewrite <- !app_assoc. cbn [app]. eexists; reflexivity.
    + intros reason Hread. rewrite Hread in Hdry, Hcustom. now split.
    + intros st Hread h2. rewrite Hread in Hdry, Hcustom. split.
      * intros [Hf Hf']. rewrite Hdry.
        rewrite (default_param_given _ fromParam Hf'), run_resolve_from by exact Hf.
        fold h2. destruct (w h2 (WalletsGetAddress wallet)); reflexivity.
      * exact Hcustom.
  - apply (Calls_run (fun op => is_getAddress op = false));
      [apply interactWriteDryRunCustom_no_wallet | constructor].
  - intros Hw. unfold outcome. split.
    + destruct (run_interactWriteDryRunCustom_resolving w tx contractId input myState
                  fromParam v Hw Hs Hv)
        as (h1 & record & st & info & r & _ & _ & Hrun).
      exists r. unfold custom. now rewrite Hrun.
    + intros Hf Hin.
      destruct (run_interactWriteDryRun_resolving w wallet contractId input tags target
                  winstonQty myState fromParam v Hw Hin Hs Hf Hv)
        as (h1 & record & st & addr & info & h5 & built & r & _ & _ & _ & _ & Hrun).
      exists r. unfold dry. now rewrite Hrun.
Qed.

Lemma dry_run_resolves_falsy_arguments_witness :
  exists h1 record built,
    run Sample.world [] (loadContract "c1") = (h1, Returned record)
    /\ run Sample.world []
         (interactWriteDryRun Sample.wallet "c1" Sample.transfer [] "" ""
            JNull JNull (InfoValue JNull))
       = (h1 ++ [ReadContract "c1"; WalletsGetAddress Sample.wallet; NetworkGetInfo;
                 MathRandom;
                 CreateTransaction
                   {| opt_data := "3456"; opt_target := None; opt_quantity := None |}
                   Sample.wallet;
                 TransactionsSign
                   (with_tags (Sample.mkTx "" "3456" [])
                      (fixed_tags "c1" Sample.transfer))
                   Sample.wallet;
                 SetActiveTx (TargetGlobal (swGlobal record))
                   (dummyActiveTx built (JStr "addr") {| height := 7; current := "blk" |});
                 Execute (HandlerFn (handler record))
                   {| input := Sample.transfer; caller := JStr "addr" |}
                   (JObj [("counter"%string, JNum 0)])],
          Returned {| state := JObj [("counter"%string, JNum 0)];
                      result := Sample.transfer |}).
Proof.
  assert (Hnull : falsy_given JNull) by (split; [reflexivity | discriminate]).
  destruct (dry_run_resolves_falsy_arguments Sample.world Sample.wallet
              (Sample.mkTx "t1" "3456" []) "c1"%string Sample.transfer []
              ""%string ""%string JNull JNull JNull Hnull Hnull)
    as (_ & Hloaded & _).
  eexists. eexists. eexists. split; [reflexivity | ].
  destruct (Hloaded _ _ eq_refl) as (_ & _ & _ & Hread).
  destruct (Hread _ eq_refl) as [Hdry _].
  rewrite (Hdry Hnull). reflexivity.
Defined.

(** ** The custom dry run and the input *)





(** ** The read flow *)

Lemma interactRead_never_throws wallet contractId input tags target winstonQty :
  truthy input = true ->
  never_throws (interactRead wallet contractId input tags target winstonQty).
Proof.
  intros Hin. unfold never_throws, interactRead.
  apply Throws_bind; [apply loadContract_never_throws | intros contractInfo].
  apply Throws_bind; [split_throws | intros latestState].
  apply Throws_bind; [split_throws | intros from].
  apply Throws_bind; [split_throws | intros info].
  apply Throws_bind; [now apply createTx_never_throws | intros tx].
  split_throws.
Qed.

(** C8.  When the read flow returns, its last call is the invocation of the
    handler of the loaded contract, and the value returned is the [result]
    field of what that invocation answered: neither the state nor the
    whole answer.  It does return when the input is truthy and every call
    is answered. *)
Theorem interactRead_returns_result_field :
  forall (w : World) wallet contractId input tags target winstonQty,
    (forall h v,
        run w [] (interactRead wallet contractId input tags target winstonQty)
        = (h, Returned v) ->
        exists pre record from st r,
          h = pre ++ [Execute (HandlerFn (handler record))
                        {| input := input; caller := from |} st] /\
          w pre (Execute (HandlerFn (handler record))
                   {| input := input; caller := from |} st) = Ok r /\
          v = result r) /\
    (answers w -> truthy input = true ->
     exists h v,
       run w [] (interactRead wallet contractId input tags target winstonQty)
       = (h, Returned v)).
Proof.
  intros w wallet contractId input tags target winstonQty. split.
  - intros h v Hrun. unfold interactRead in Hrun.
    bind_inv Hrun h1 record Hload.
    bind_inv Hrun h2 st Hstate.
    bind_inv Hrun h3 from Hfrom.
    bind_inv Hrun h4 info Hinfo.
    bind_inv Hrun h5 tx Htx.
    bind_inv Hrun h6 u Hinstall.
    bind_inv Hrun h7 r Hexec.
    call_inv Hexec.
    apply run_Ret_inv in Hrun as [-> ->].
    exists h6, record, from, st, r. auto.
  - intros Hw Hin.
    apply never_throws_returns; [exact Hw | now apply interactRead_never_throws].
Qed.

Lemma interactRead_returns_result_field_witness :
  exists h,
    run Sample.world [] (interactRead Sample.wallet "c1" Sample.transfer [] "" "")
    = (h, Returned Sample.transfer)
    /\ exists pre record from st r,
         h = pre ++ [Execute (HandlerFn (handler record))
                       {| input := Sample.transfer; caller := from |} st]
         /\ Sample.world pre
              (Execute (HandlerFn (handler record))
                 {| input := Sample.transfer; caller := from |} st) = Ok r
         /\ Sample.transfer = result r
         /\ state r = JObj [("counter"%string, JNum 0)].
Proof.
  eexists. split; [reflexivity | ].
  destruct (proj1 (interactRead_returns_result_field Sample.world Sample.wallet
                     "c1"%string Sample.transfer [] ""%string ""%string)
              _ _ eq_refl)
    as (pre & record & from & st & r & Hh & Hr & Hv).
  exists pre, record, from, st, r.
  repeat split; try assumption.
  cbn in Hr. injection Hr as <-.
  apply app_inj_tail in Hh as [_ Hh]. injection Hh as _ _ <-. reflexivity.
Defined.

(** ** The assertion helper of the contract scope *)

(** [ContractAssert(cond, message)] raises [ContractError] with that
    message exactly when [cond] is falsy, and makes no call. *)
Lemma ContractAssert_raises (w : World) (h : list Op) (cond message : JsVal) :
  run w h (ContractAssert cond message)
  = (h, if truthy cond then Returned tt else Thrown (ContractError message)).
Proof. unfold ContractAssert. destruct (truthy cond); reflexivity. Qed.

(** * Further properties of the flows *)

(** ** What the flows never call *)

Lemma truthy_default_param (d v : JsVal) : truthy v = true -> default_param d v = v.
Proof. destruct v; intros H; try reflexivity. discriminate. Qed.

(** The read flow submits nothing: whatever the arguments and the answers,
    none of its calls is [arweave.transactions.post]. *)
Theorem interactRead_never_posts :
  forall (w : World) wallet contractId input tags target winstonQty,
    Forall (fun op => is_post op = false)
      (trace w (interactRead wallet contractId input tags target winstonQty)).
Proof.
  intros. apply (Calls_run not_post); [ | constructor ].
  split_prog; reflexivity.
Qed.

(** The loader only reads from the ledger: its calls are
    [arweave.transactions.get] and the three steps that build the handler;
    it creates, signs and posts nothing and asks neither the wallet nor
    the network information. *)
Theorem loadContract_only_fetches :
  forall (w : World) contractID,
    Forall loader_call (trace w (loadContract contractID)).
Proof.
  intros. apply Calls_run; [ | constructor ].
  split_prog; exact I.
Qed.

(** The custom dry run builds no transaction of its own: it never calls
    [Math.random], [arweave.createTransaction], [sign], [post] or the
    wallet, whatever its arguments. *)
Theorem interactWriteDryRunCustom_builds_nothing :
  forall (w : World) tx contractId input myState fromParam contractInfoParam,
    Forall custom_call
      (trace w (interactWriteDryRunCustom tx contractId input myState fromParam
                  contractInfoParam)).
Proof.
  intros. apply Calls_run; [ | constructor ].
  split_prog; exact I.
Qed.

(** ** Reusing what the caller supplies *)

(** When the caller supplies a loaded contract record, a truthy state and
    a truthy caller address, the write dry run fetches no transaction,
    reads no state and does not ask the wallet; the active transaction is
    stored in the global of that record with that caller for its owner, and
    the handler of that record is invoked on that state and caller. *)
Theorem interactWriteDryRun_reuses_arguments :
  forall (w : World) wallet contractId input tags target winstonQty
         myState fromParam record,
    truthy myState = true ->
    truthy fromParam = true ->
    Forall (reuses record myState fromParam input)
      (trace w (interactWriteDryRun wallet contractId input tags target winstonQty
                  myState fromParam (InfoRecord record))).
Proof.
  intros w wallet contractId input tags target winstonQty myState fromParam record
    Hs Hf.
  apply Calls_run; [ | constructor ].
  unfold interactWriteDryRun.
  rewrite !truthy_default_param by assumption.
  cbn [default_info info_truthy]. rewrite Hs, Hf.
  split_prog; cbn; auto.
Qed.

Lemma interactWriteDryRun_reuses_arguments_witness :
  Forall (reuses
            {| cr_id := "c1"; contractSrc := Sample.source; initState := JStr "{}";
               minFee := JBool false;
               contractTX := Sample.mkTx "c1" "{}" Sample.contract_tags;
               handler := HandlerRef 3; swGlobal := SwRef 1 |}
            (JObj [("counter"%string, JNum 0)]) (JStr "addr") Sample.transfer)
    (trace Sample.world
       (interactWriteDryRun Sample.wallet "c1" Sample.transfer [] "" ""
          (JObj [("counter"%string, JNum 0)]) (JStr "addr")
          (InfoRecord
             {| cr_id := "c1"; contractSrc := Sample.source; initState := JStr "{}";
                minFee := JBool false;
                contractTX := Sample.mkTx "c1" "{}" Sample.contract_tags;
                handler := HandlerRef 3; swGlobal := SwRef 1 |}))).
Proof.
  apply interactWriteDryRun_reuses_arguments; reflexivity.
Defined.

(** The same for the custom dry run, which takes the caller as it is
    given, truthy or not. *)
Theorem interactWriteDryRunCustom_reuses_arguments :
  forall (w : World) tx contractId input myState fromParam record,
    truthy myState = true ->
    fromParam <> JUndefined ->
    Forall (reuses record myState fromParam input)
      (trace w (interactWriteDryRunCustom tx contractId input
                  myState fromParam (InfoRecord record))).
Proof.
  intros w tx contractId input myState fromParam record Hs Hf.
  apply Calls_run; [ | constructor ].
  unfold interactWriteDryRunCustom.
  rewrite (truthy_default_param _ myState), (default_param_given _ fromParam)
    by assumption.
  cbn [default_info info_truthy]. rewrite Hs.
  split_prog; cbn; auto.
Qed.

Lemma interactWriteDryRunCustom_reuses_arguments_witness :
  Forall (reuses
            {| cr_id := "c1"; contractSrc := Sample.source; initState := JStr "{}";
               minFee := JBool false;
               contractTX := Sample.mkTx "c1" "{}" Sample.contract_tags;
               handler := HandlerRef 3; swGlobal := SwRef 1 |}
            (JObj [("counter"%string, JNum 0)]) JNull Sample.transfer)
    (trace Sample.world
       (interactWriteDryRunCustom (Sample.mkTx "t1" "3456" []) "c1" Sample.transfer
          (JObj [("counter"%string, JNum 0)]) JNull
          (InfoRecord
             {| cr_id := "c1"; contractSrc := Sample.source; initState := JStr "{}";
                minFee := JBool false;
                contractTX := Sample.mkTx "c1" "{}" Sample.contract_tags;
                handler := HandlerRef 3; swGlobal := SwRef 1 |}))).
Proof.
  apply interactWriteDryRunCustom_reuses_arguments; [reflexivity | discriminate].
Defined.

(** A read without a wallet never asks for an address: the caller that the
    handler and the active transaction see is the empty string, and the
    transaction is created and signed with no key. *)
Theorem interactRead_without_wallet :
  forall (w : World) contractId input tags target winstonQty,
    Forall anonymous
      (trace w (interactRead no_wallet contractId input tags target winstonQty)).
Proof.
  intros. apply Calls_run; [ | constructor ].
  unfold interactRead. cbn [wallet_truthy].
  split_prog; cbn; auto.
Qed.

(** ** The record of the loader *)

(** A record that [loadContract] returns holds the contract id, the
    defining transaction as fetched, the payload of the source transaction
    as fetched (not the rewritten text) and the Min-Fee lookup.  The loader
    fetched the defining transaction, then the one its Contract-Src lookup
    names, then the state transaction if the state is kept there; it then
    created the global for this contract id, built the function from the
    rewritten source and called it with that very global: the global of
    the record is the one the handler was created with. *)
Theorem loadContract_record_and_calls :
  forall (w : World) contractID h record,
    run w [] (loadContract contractID) = (h, Returned record) ->
    exists srcTX f,
      let defining := contractTX record in
      let fetched :=
        [TransactionsGet (JStr contractID);
         TransactionsGet (getTag defining "Contract-Src")] ++ state_fetch defining in
      let body := returningSrc (normalized_source (tx_data srcTX)) in
      cr_id record = contractID /\
      w [] (TransactionsGet (JStr contractID)) = Ok defining /\
      w [TransactionsGet (JStr contractID)]
        (TransactionsGet (getTag defining "Contract-Src")) = Ok srcTX /\
      contractSrc record = tx_data srcTX /\
      minFee record = getTag defining "Min-Fee" /\
      w fetched (NewSmartWeaveGlobal contractID) = Ok (swGlobal record) /\
      w (fetched ++ [NewSmartWeaveGlobal contractID]) (NewFunction body) = Ok f /\
      w (fetched ++ [NewSmartWeaveGlobal contractID; NewFunction body])
        (CallFunction f (swGlobal record)) = Ok (handler record) /\
      h = fetched ++ [NewSmartWeaveGlobal contractID; NewFunction body;
                      CallFunction f (swGlobal record)].
Proof.
  intros w contractID h record Hrun. unfold loadContract in Hrun.
  bind_inv Hrun h1 defining Hget. call_inv Hget.
  bind_inv Hrun h2 srcTX Hsrc. call_inv Hsrc.
  bind_inv Hrun h3 st Hstate.
  bind_inv Hrun h4 env Henv.
  apply run_Ret_inv in Hrun as [-> ->].
  assert (Hh3 : h3 = [TransactionsGet (JStr contractID);
                      TransactionsGet (getTag defining "Contract-Src")]
                     ++ state_fetch defining).
  { unfold state_fetch.
    destruct (truthy (getTag defining "Init-State")).
    - apply run_Ret_inv in Hstate as [-> _]. reflexivity.
    - destruct (truthy (getTag defining "Init-State-TX")).
      + bind_inv Hstate h5 stateTX Hst. call_inv Hst.
        apply run_Ret_inv in Hstate as [-> _]. reflexivity.
      + apply run_Ret_inv in Hstate as [-> _]. reflexivity. }
  unfold createContractExecutionEnvironment in Henv.
  bind_inv Henv h5 sw Hsw. call_inv Hsw.
  bind_inv Henv h6 f Hf. call_inv Hf.
  bind_inv Henv h7 hdl Hhd. call_inv Hhd.
  apply run_Ret_inv in Henv as [-> ->].
  exists srcTX, f. cbn zeta. cbn [cr_id contractTX contractSrc minFee swGlobal handler fst snd].
  split; [reflexivity | ]. split; [exact Hget | ]. split; [exact Hsrc | ].
  split; [reflexivity | ]. split; [reflexivity | ]. split; [exact Hsw | ].
  split; [exact Hf | ].
  split.
  - rewrite <- app_assoc in Hhd. exact Hhd.
  - unfold normalized_source. rewrite <- !app_assoc. reflexivity.
Qed.

Lemma loadContract_record_and_calls_witness :
  exists h record,
    run Sample.world [] (loadContract "c1") = (h, Returned record)
    /\ contractSrc record = Sample.source
    /\ swGlobal record = SwRef 1
    /\ h = [TransactionsGet (JStr "c1"); TransactionsGet (JStr "s1");
            NewSmartWeaveGlobal "c1";
            NewFunction (returningSrc (normalized_source Sample.source));
            CallFunction (FnRef 2) (SwRef 1)].
Proof.
  eexists. eexists. split; [reflexivity | ].
  destruct (loadContract_record_and_calls Sample.world "c1"%string _ _ eq_refl)
    as (srcTX & f & _ & _ & Hsrc & Hc & _ & _ & Hf & _ & Hh).
  injection Hsrc as <-. injection Hf as <-.
  split; [exact Hc | ]. split; [reflexivity | exact Hh].
Defined.

(** ** The write flow *)

Lemma interactWrite_never_throws wallet contractId input tags target winstonQty :
  truthy input = true ->
  never_throws (interactWrite wallet contractId input tags target winstonQty).
Proof.
  intros Hin. unfold never_throws, interactWrite.
  apply Throws_bind; [now apply createTx_never_throws | intros tx].
  split_throws.
Qed.

(** Whatever the write flow posts was built and signed in the same run: a
    post is the last call, it comes right after the signature, and the
    transaction posted is the signed one, which carries the Contract and
    Input tags of this interaction.  The input was truthy. *)
Theorem interactWrite_posts_what_it_signed :
  forall (w : World) wallet contractId input tags target winstonQty posted,
    In (TransactionsPost posted)
       (trace w (interactWrite wallet contractId input tags target winstonQty)) ->
    exists pre unsigned signed,
      trace w (interactWrite wallet contractId input tags target winstonQty)
      = pre ++ [TransactionsSign unsigned wallet; TransactionsPost posted] /\
      Forall (fun op => is_post op = false) pre /\
      w pre (TransactionsSign unsigned wallet) = Ok signed /\
      posted = setSignature unsigned signed /\
      truthy input = true /\
      In ("Contract"%string, contractId) (tx_tags posted) /\
      In ("Input"%string, template (JSON_stringify input)) (tx_tags posted).
Proof.
  intros w wallet contractId input tags target winstonQty posted.
  unfold trace. rewrite run_interactWrite, run_createTx. cbn zeta.
  destruct (w [] MathRandom) as [rnd | reason]; cbn [app fst].
  2: { intros [H | []]; discriminate. }
  destruct (w [MathRandom] _) as [created | reason]; cbn [app fst].
  2: { intros [H | [H | []]]; discriminate. }
  destruct (truthy input); cbn [app fst].
  2: { intros [H | [H | []]]; discriminate. }
  destruct (w _ (TransactionsSign _ wallet)) as [signed | reason] eqn:Hsign;
    cbn [app fst].
  2: { intros [H | [H | [H | []]]]; discriminate. }
  assert (Hposted : forall l,
             In (TransactionsPost posted)
                ([MathRandom;
                  CreateTransaction (createTx_options rnd target winstonQty) wallet;
                  TransactionsSign
                    (with_tags created
                       (tx_tags created ++ tags ++ fixed_tags contractId input))
                    wallet] ++ [TransactionsPost l]) ->
             posted = l).
  { intros l [H | [H | [H | [H | []]]]]; try discriminate. now injection H. }
  match goal with
  | |- In _ (fst ?r) -> _ =>
      assert (Hfst : fst r
                     = [MathRandom;
                        CreateTransaction (createTx_options rnd target winstonQty) wallet;
                        TransactionsSign
                          (with_tags created
                             (tx_tags created ++ tags ++ fixed_tags contractId input))
                          wallet]
                       ++ [TransactionsPost
                             (setSignature
                                (with_tags created
                                   (tx_tags created ++ tags
                                    ++ fixed_tags contractId input))
                                signed)])
  end.
  { destruct (w _ (TransactionsPost _)); reflexivity. }
  rewrite Hfst. intros Hin. apply Hposted in Hin. subst posted.
  exists [MathRandom; CreateTransaction (createTx_options rnd target winstonQty) wallet],
    (with_tags created (tx_tags created ++ tags ++ fixed_tags contractId input)),
    signed.
  split; [reflexivity | ].
  split; [repeat constructor | ].
  split; [exact Hsign | ].
  split; [reflexivity | ].
  split; [reflexivity | ].
  cbn [tx_tags setSignature with_tags fixed_tags].
  split; apply in_or_app; right; apply in_or_app; right; cbn; auto.
Qed.

Lemma interactWrite_posts_what_it_signed_witness :
  exists pre unsigned signed,
    trace Sample.world (interactWrite Sample.wallet "c1" Sample.transfer [] "" "")
    = pre ++ [TransactionsSign unsigned Sample.wallet;
              TransactionsPost (setSignature unsigned signed)]
    /\ In ("Contract"%string, "c1"%string) (tx_tags (setSignature unsigned signed)).
Proof.
  destruct (interactWrite_posts_what_it_signed Sample.world Sample.wallet "c1"%string
              Sample.transfer [] ""%string ""%string
              (setSignature
                 (with_tags (Sample.mkTx "" "3456" [])
                    (fixed_tags "c1" Sample.transfer))
                 {| sig_id := "id1"; sig_owner := "me"; sig_signature := "sig" |}))
    as (pre & unsigned & signed & Htrace & _ & _ & Hposted & _ & Hc & _).
  - cbn. auto 6.
  - exists pre, unsigned, signed. rewrite <- Hposted. split; assumption.
Defined.

(** A write that returns has posted: the value is the id of the posted
    transaction exactly when the answer had status 200, and [null] exactly
    when it had another status. *)
Theorem interactWrite_returned_value :
  forall (w : World) wallet contractId input tags target winstonQty h v,
    run w [] (interactWrite wallet contractId input tags target winstonQty)
    = (h, Returned v) ->
    exists pre tx response,
      h = pre ++ [TransactionsPost tx] /\
      w pre (TransactionsPost tx) = Ok response /\
      truthy input = true /\
      ((status response = 200%Z /\ v = JStr (tx_id tx)) \/
       (status response <> 200%Z /\ v = JNull)).
Proof.
  intros w wallet contractId input tags target winstonQty h v Hrun.
  unfold interactWrite in Hrun.
  bind_inv Hrun h1 tx Htx.
  bind_inv Hrun h2 response Hpost. call_inv Hpost.
  assert (Hin : truthy input = true).
  { rewrite run_createTx in Htx. cbn zeta in Htx.
    destruct (w [] MathRandom); [ | discriminate ].
    destruct (w _ (CreateTransaction _ wallet)); [ | discriminate ].
    destruct (truthy input); [reflexivity | discriminate]. }
  exists h1, tx, response.
  destruct (Z.eqb_spec (status response) 200) as [Hs | Hs]; cbn [negb] in Hrun;
    apply run_Ret_inv in Hrun as [-> ->]; auto 6.
Qed.

Lemma interactWrite_returned_value_witness :
  exists pre tx response,
    Sample.world pre (TransactionsPost tx) = Ok response
    /\ ((status response = 200%Z /\ JStr "id1" = JStr (tx_id tx)) \/
        (status response <> 200%Z /\ JStr "id1" = JNull)).
Proof.
  destruct (interactWrite_returned_value Sample.world Sample.wallet "c1"%string
              Sample.transfer [] ""%string ""%string _ (JStr "id1") eq_refl)
    as (pre & tx & response & _ & Hpost & _ & Hv).
  exists pre, tx, response. split; assumption.
Defined.

(** With a truthy input the write flow and the read flow raise nothing of
    their own: if one of them fails, a collaborator rejected a call. *)
Theorem truthy_input_fails_only_by_rejection :
  forall (w : World) wallet contractId input tags target winstonQty e,
    truthy input = true ->
    outcome w (interactWrite wallet contractId input tags target winstonQty) = Thrown e \/
    outcome w (interactRead wallet contractId input tags target winstonQty) = Thrown e ->
    exists reason, e = Rejected reason.
Proof.
  intros w wallet contractId input tags target winstonQty e Hin [H | H].
  - destruct (Throws_run _ w _
                (interactWrite_never_throws wallet contractId input tags target
                   winstonQty Hin) [] e H) as [[] | Hr]; exact Hr.
  - destruct (Throws_run _ w _
                (interactRead_never_throws wallet contractId input tags target
                   winstonQty Hin) [] e H) as [[] | Hr]; exact Hr.
Qed.

Lemma truthy_input_fails_only_by_rejection_witness :
  outcome Sample.world (interactRead Sample.wallet "zz" Sample.transfer [] "" "")
  = Thrown (Rejected "404")
  /\ exists reason, Rejected "404" = Rejected reason.
Proof.
  split; [reflexivity | ].
  apply (truthy_input_fails_only_by_rejection Sample.world Sample.wallet "zz"%string
           Sample.transfer [] ""%string ""%string (Rejected "404") eq_refl).
  right. reflexivity.
Defined.

(** ** A falsy input in the simulating flows *)

Lemma Stops_bind_l {A B : Type} (m : Prog A) (f : A -> Prog B) :
  Stops m -> Stops (bind m f).
Proof.
  induction m as [a | e | op k IH]; cbn; intros H; auto. contradiction.
Qed.

Lemma Stops_bind_r {A B : Type} (m : Prog A) (f : A -> Prog B) :
  (forall a, Stops (f a)) -> Stops (bind m f).
Proof. induction m as [a | e | op k IH]; cbn; intros H; auto. Qed.

Lemma Stops_run {A : Type} (w : World) (p : Prog A) :
  Stops p -> forall h a, snd (run w h p) <> Returned a.
Proof.
  induction p as [a | e | op k IH]; cbn; intros H h a'.
  - contradiction.
  - discriminate.
  - destruct (w h op) as [r | reason]; [now apply IH | discriminate].
Qed.

Lemma Calls_bind_stops {A B : Type} (P : Op -> Prop) (m : Prog A) (f : A -> Prog B) :
  Calls P m -> Stops m -> Calls P (bind m f).
Proof.
  induction 1 as [a | e | op k Hop Hk IH]; cbn; intros Hs.
  - contradiction.
  - constructor.
  - constructor; [assumption | intros r; apply IH, Hs].
Qed.

Lemma createTx_stops wallet contractId input tags target winstonQty :
  truthy input = false ->
  Stops (createTx wallet contractId input tags target winstonQty).
Proof. intros Hin. unfold createTx. rewrite Hin. cbn. auto. Qed.

Lemma createTx_harmless_on_falsy wallet contractId input tags target winstonQty :
  truthy input = false ->
  Calls harmless (createTx wallet contractId input tags target winstonQty).
Proof.
  intros Hin. unfold createTx. rewrite Hin. cbn [negb].
  split_prog; repeat split.
Qed.

(** With a falsy input the write dry run and the read flow stop at the
    input check of [createTx]: they never return, no active transaction
    is stored, no handler is invoked and nothing is signed or posted,
    whatever the other arguments and the answers. *)
Theorem falsy_input_stops_simulation :
  forall (w : World) wallet contractId input tags target winstonQty
         myState fromParam contractInfoParam,
    truthy input = false ->
    (Forall harmless
       (trace w (interactWriteDryRun wallet contractId input tags target winstonQty
                   myState fromParam contractInfoParam)) /\
     forall r,
       outcome w (interactWriteDryRun wallet contractId input tags target winstonQty
                    myState fromParam contractInfoParam) <> Returned r) /\
    (Forall harmless
       (trace w (interactRead wallet contractId input tags target winstonQty)) /\
     forall v,
       outcome w (interactRead wallet contractId input tags target winstonQty)
       <> Returned v).
Proof.
  intros w wallet contractId input tags target winstonQty myState fromParam
    contractInfoParam Hin.
  split; split.
  - apply Calls_run; [ | constructor ]. unfold interactWriteDryRun.
    apply Calls_bind; [split_prog; repeat split | intros contractInfo].
    apply Calls_bind; [split_prog; repeat split | intros latestState].
    apply Calls_bind; [split_prog; repeat split | intros from].
    apply Calls_bind; [split_prog; repeat split | intros info].
    apply Calls_bind_stops;
      [now apply createTx_harmless_on_falsy | now apply createTx_stops].
  - intros r. apply Stops_run. unfold interactWriteDryRun.
    do 4 (apply Stops_bind_r; intros ?).
    apply Stops_bind_l. now apply createTx_stops.
  - apply Calls_run; [ | constructor ]. unfold interactRead.
    apply Calls_bind; [split_prog; repeat split | intros contractInfo].
    apply Calls_bind; [split_prog; repeat split | intros latestState].
    apply Calls_bind; [split_prog; repeat split | intros from].
    apply Calls_bind; [split_prog; repeat split | intros info].
    apply Calls_bind_stops;
      [now apply createTx_harmless_on_falsy | now apply createTx_stops].
  - intros v. apply Stops_run. unfold interactRead.
    do 4 (apply Stops_bind_r; intros ?).
    apply Stops_bind_l. now apply createTx_stops.
Qed.

Lemma falsy_input_stops_simulation_witness :
  Forall harmless
    (trace Sample.world (interactRead Sample.wallet "c1" (JNum 0) [] "" ""))
  /\ outcome Sample.world (interactRead Sample.wallet "c1" (JNum 0) [] "" "")
     = Thrown (InvalidInputError (JNum 0)).
Proof.
  split; [ | reflexivity ].
  apply (falsy_input_stops_simulation Sample.world Sample.wallet "c1"%string (JNum 0)
           [] ""%string ""%string JNull JNull (InfoValue JNull) eq_refl).
Defined.

(** ** The read flow as a dry run *)

Ltac same_step w :=
  rewrite ?run_bind;
  match goal with
  | |- context [run w ?h ?m] =>
      let h' := fresh "h" in
      let a := fresh "a" in
      let e := fresh "e" in
      destruct (run w h m) as [h' [a | e]];
      cbn [run fst snd map_outcome bind info_handler]; [ | reflexivity ]
  end.

(** A read with a wallet is the write dry run in which the state, the
    caller and the contract record are to be resolved, followed by the
    projection on [result]: the same calls in the same order in every
    world, the same failure if one fails. *)
Theorem interactRead_is_dry_run_result :
  forall (w : World) wallet contractId input tags target winstonQty
         myState fromParam v,
    wallet_truthy wallet = true ->
    falsy_given myState -> falsy_given fromParam -> falsy_given v ->
    run w [] (interactRead wallet contractId input tags target winstonQty)
    = (trace w (interactWriteDryRun wallet contractId input tags target winstonQty
                  myState fromParam (InfoValue v)),
       map_outcome result
         (outcome w (interactWriteDryRun wallet contractId input tags target winstonQty
                       myState fromParam (InfoValue v)))).
Proof.
  intros w wallet contractId input tags target winstonQty myState fromParam v
    Hwallet [Hs Hs'] [Hf Hf'] [Hv Hv'].
  unfold trace, outcome, interactRead, interactWriteDryRun, default_info.
  rewrite !default_param_given by assumption.
  cbn [info_truthy]. rewrite Hwallet, Hs, Hf, Hv.
  do 7 same_step w.
  reflexivity.
Qed.

Lemma interactRead_is_dry_run_result_witness :
  run Sample.world [] (interactRead Sample.wallet "c1" Sample.transfer [] "" "")
  = (trace Sample.world
       (interactWriteDryRun Sample.wallet "c1" Sample.transfer [] "" ""
          JNull (JStr "") (InfoValue (JBool false))),
     Returned Sample.transfer).
Proof.
  rewrite (interactRead_is_dry_run_result Sample.world Sample.wallet "c1"%string
             Sample.transfer [] ""%string ""%string JNull (JStr "") (JBool false)
             eq_refl);
    [reflexivity | split; [reflexivity | discriminate] ..].
Defined.

(** ** The active transaction and the handler *)

Lemma run_install_inv (w : World) h h' contractInfo activeTx u :
  run w h (install_activeTx contractInfo activeTx) = (h', Returned u) ->
  exists target, h' = h ++ [SetActiveTx target activeTx].
Proof.
  unfold install_activeTx, info_swGlobal, set_activeTx, get_property.
  destruct contractInfo as [record | v].
  - cbn [bind]. intros H. call_inv H. eauto.
  - destruct v; cbn [bind run]; try discriminate.
    destruct (get_field "swGlobal" fields); cbn [run]; try discriminate;
      intros H; call_inv H; eauto.
Qed.

Lemma run_info_handler_inv (w : World) h h' contractInfo hdl :
  run w h (info_handler contractInfo) = (h', Returned hdl) -> h' = h.
Proof.
  unfold info_handler, get_property.
  destruct contractInfo as [record | v].
  - intros H. now apply run_Ret_inv in H as [-> _].
  - destruct v; cbn [bind run]; try discriminate; now intros [= <- _].
Qed.

Lemma run_createTx_inv (w : World) h h' wallet contractId input tags target winstonQty tx :
  run w h (createTx wallet contractId input tags target winstonQty) = (h', Returned tx) ->
  truthy input = true /\
  In ("Contract"%string, contractId) (tx_tags tx) /\
  In ("Input"%string, template (JSON_stringify input)) (tx_tags tx).
Proof.
  rewrite run_createTx. cbn zeta.
  destruct (w h MathRandom) as [rnd | reason]; [ | discriminate ].
  destruct (w _ (CreateTransaction _ wallet)) as [created | reason]; [ | discriminate ].
  destruct (truthy input); [ | discriminate ].
  destruct (w _ (TransactionsSign _ wallet)) as [signed | reason]; [ | discriminate ].
  intros [= _ <-]. cbn [tx_tags setSignature with_tags fixed_tags].
  split; [reflexivity | ].
  split; apply in_or_app; right; apply in_or_app; right; cbn; auto.
Qed.

Lemma quiet_segment {A : Type} (w : World) (m : Prog A) h h' (o : Outcome A) :
  Calls quiet m -> Forall quiet h -> run w h m = (h', o) -> Forall quiet h'.
Proof.
  intros Hm Hh Hrun.
  change h' with (fst (h', o)). rewrite <- Hrun. now apply Calls_run.
Qed.

(** Every returning run of the write dry run and of the read flow ends
    with exactly one store of an active transaction followed by exactly one
    invocation of the handler; the active transaction has the caller of the
    interaction for its owner, the height and block id that the network
    reported, a [null] timestamp, and the Contract and Input tags of the
    interaction that the handler receives. *)
Theorem simulation_describes_interaction :
  forall (w : World) wallet contractId input tags target winstonQty
         myState fromParam contractInfoParam,
    (forall h r,
        run w []
          (interactWriteDryRun wallet contractId input tags target winstonQty
             myState fromParam contractInfoParam) = (h, Returned r) ->
        simulated w contractId input h r) /\
    (forall h v,
        run w [] (interactRead wallet contractId input tags target winstonQty)
        = (h, Returned v) ->
        exists r, v = result r /\ simulated w contractId input h r).
Proof.
  intros w wallet contractId input tags target winstonQty myState fromParam
    contractInfoParam.
  split.
  - intros h r Hrun. unfold interactWriteDryRun in Hrun.
    bind_inv Hrun h1 contractInfo H1.
    bind_inv Hrun h2 latestState H2.
    bind_inv Hrun h3 from H3.
    bind_inv Hrun h4 info H4.
    bind_inv Hrun h5 tx H5.
    bind_inv Hrun h6 u H6.
    bind_inv Hrun h7 hdl H7.
    apply run_info_handler_inv in H7 as ->.
    apply run_install_inv in H6 as [slot ->].
    assert (Hq : Forall quiet h5).
    { eapply quiet_segment; [ | | exact H5]; [split_prog; split; reflexivity | ].
      eapply quiet_segment; [ | | exact H4]; [split_prog; split; reflexivity | ].
      eapply quiet_segment; [ | | exact H3]; [split_prog; split; reflexivity | ].
      eapply quiet_segment; [ | | exact H2]; [split_prog; split; reflexivity | ].
      eapply quiet_segment; [ | | exact H1]; [split_prog; split; reflexivity | ].
      constructor. }
    apply run_createTx_inv in H5 as (Hin & Hc & Hi).
    autounfold with awaited in H4.
    apply (run_call_inv w NetworkGetInfo) in H4 as [H4 _].
    call_inv Hrun.
    exists h5, h3, info, slot, (dummyActiveTx tx from info), hdl,
      {| input := input; caller := from |}, latestState.
    split; [now rewrite <- app_assoc | ].
    split; [exact Hq | ]. split; [exact H4 | ].
    split; [ | split; [reflexivity | exact Hrun] ].
    repeat split; assumption.
  - intros h v Hrun. unfold interactRead in Hrun.
    bind_inv Hrun h1 contractInfo H1.
    bind_inv Hrun h2 latestState H2.
    bind_inv Hrun h3 from H3.
    bind_inv Hrun h4 info H4.
    bind_inv Hrun h5 tx H5.
    bind_inv Hrun h6 u H6.
    bind_inv Hrun h7 r H7.
    apply run_Ret_inv in Hrun as [-> ->].
    apply run_install_inv in H6 as [slot ->].
    assert (Hq : Forall quiet h5).
    { eapply quiet_segment; [ | | exact H5]; [split_prog; split; reflexivity | ].
      eapply quiet_segment; [ | | exact H4]; [split_prog; split; reflexivity | ].
      eapply quiet_segment; [ | | exact H3]; [split_prog; split; reflexivity | ].
      eapply quiet_segment; [ | | exact H2]; [split_prog; split; reflexivity | ].
      eapply quiet_segment; [ | | exact H1]; [split_prog; split; reflexivity | ].
      constructor. }
    apply run_createTx_inv in H5 as (Hin & Hc & Hi).
    autounfold with awaited in H4.
    apply (run_call_inv w NetworkGetInfo) in H4 as [H4 _].
    call_inv H7.
    exists r. split; [reflexivity | ].
    exists h5, h3, info, slot, (dummyActiveTx tx from info),
      (HandlerFn (handler contractInfo)),
      {| input := input; caller := from |}, latestState.
    split; [now rewrite <- app_assoc | ].
    split; [exact Hq | ]. split; [exact H4 | ].
    split; [ | split; [reflexivity | exact H7] ].
    repeat split; assumption.
Qed.

Lemma simulation_describes_interaction_witness :
  exists h r,
    run Sample.world []
      (interactWriteDryRun Sample.wallet "c1" Sample.transfer [] "" ""
         JNull JNull (InfoValue JNull)) = (h, Returned r)
    /\ simulated Sample.world "c1" Sample.transfer h r.
Proof.
  eexists. eexists. split; [reflexivity | ].
  apply (proj1 (simulation_describes_interaction Sample.world Sample.wallet
                  "c1"%string Sample.transfer [] ""%string ""%string
                  JNull JNull (InfoValue JNull))).
  reflexivity.
Defined.

(** ** The options of the transaction *)

Lemma gt0_of_empty : Number.gt0 (Number.of_string EmptyString) = false.
Proof. reflexivity. Qed.

Lemma createTx_options_well_formed (rnd target winstonQty : string) (wallet : Wallet) :
  well_formed_options target winstonQty
    (CreateTransaction (createTx_options rnd target winstonQty) wallet).
Proof.
  unfold well_formed_options, createTx_options, nonempty.
  destruct (String.eqb_spec target EmptyString) as [-> | Ht]; cbn [negb].
  - cbn. repeat split; auto using slice_last_length.
  - destruct (negb (winstonQty =? EmptyString)%string
              && Number.gt0 (Number.of_string winstonQty)); cbn;
      repeat split; auto using slice_last_length.
Qed.

(** In every flow that builds a transaction, each call of
    [arweave.createTransaction] carries a payload of at most four
    characters, a target only if the target given is not empty, and a
    quantity only together with that target: never a quantity alone. *)
Theorem flows_create_well_formed_options :
  forall (w : World) wallet contractId input tags target winstonQty
         myState fromParam contractInfoParam,
    Forall (well_formed_options target winstonQty)
      (trace w (interactWrite wallet contractId input tags target winstonQty)) /\
    Forall (well_formed_options target winstonQty)
      (trace w (interactWriteDryRun wallet contractId input tags target winstonQty
                  myState fromParam contractInfoParam)) /\
    Forall (well_formed_options target winstonQty)
      (trace w (interactRead wallet contractId input tags target winstonQty)).
Proof.
  intros. repeat split; (apply Calls_run; [ | constructor ]);
    split_prog; first [exact I | apply createTx_options_well_formed].
Qed.

(** *** Quantities that are not attached *)

Lemma trim_head (c : ascii) (l : list ascii) :
  solid c -> Number.trim (c :: l) = c :: Number.trim_right l.
Proof.
  intros Hc. unfold Number.trim. rewrite (trim_left_solid_head _ _ Hc).
  cbn [Number.trim_right]. unfold Number.is_white.
  now rewrite (trim_left_solid_head _ _ Hc).
Qed.

Lemma gt0_minus (s : string) :
  Number.gt0 (Number.of_string (String "-" s)) = false.
Proof.
  unfold Number.of_string, Number.of_chars. cbn [list_ascii_of_string].
  rewrite trim_head by (unfold solid; cbn; lia).
  cbn [Number.of_literal]. change (Number.is_char 45 "-") with true. cbv iota.
  apply gt0_negative.
Qed.

Lemma createTx_options_minus (rnd target s : string) :
  opt_quantity (createTx_options rnd target (String "-" s)) = None.
Proof.
  unfold createTx_options. rewrite gt0_minus, andb_false_r.
  now destruct (nonempty target).
Qed.

(** A quantity written with a leading minus sign is never attached, in any
    flow that builds a transaction: no call of
    [arweave.createTransaction] carries a quantity. *)
Theorem negative_quantity_never_attached :
  forall (w : World) wallet contractId input tags target s
         myState fromParam contractInfoParam,
    Forall without_quantity
      (trace w (interactWrite wallet contractId input tags target (String "-" s))) /\
    Forall without_quantity
      (trace w (interactWriteDryRun wallet contractId input tags target (String "-" s)
                  myState fromParam contractInfoParam)) /\
    Forall without_quantity
      (trace w (interactRead wallet contractId input tags target (String "-" s))).
Proof.
  intros. repeat split; (apply Calls_run; [ | constructor ]);
    split_prog; first [exact I | apply createTx_options_minus].
Qed.

(** *** Quantities that are attached *)

Lemma digit_in_decimal (c : ascii) :
  is_digit c = true ->
  exists d, Number.digit_in 10 c = Some d /\ (0 <= d)%Z /\
            (is_nonzero_digit c = true -> 0 < d)%Z.
Proof.
  unfold is_digit, is_nonzero_digit, Number.digit_in.
  intros H. apply andb_prop in H as [H1 H2].
  apply Nat.leb_le in H1, H2.
  set (n := nat_of_ascii c) in *.
  assert (E1 : (48 <=? Z.of_nat n)%Z = true) by (apply Z.leb_le; lia).
  assert (E2 : (Z.of_nat n <=? 57)%Z = true) by (apply Z.leb_le; lia).
  rewrite E1, E2. cbn [andb].
  assert (E3 : (Z.of_nat n - 48 <? 10)%Z = true) by (apply Z.ltb_lt; lia).
  rewrite E3. exists (Z.of_nat n - 48)%Z.
  split; [reflexivity | ]. split; [lia | ].
  intros H. apply andb_prop in H as [H _]. apply Nat.leb_le in H. lia.
Qed.

Lemma digits_decimal (l : list ascii) :
  forallb is_digit l = true ->
  forall acc count, (0 <= acc)%Z ->
    exists v,
      Number.digits 10 acc count l = (v, count + length l, []) /\
      (acc <= v)%Z /\
      (existsb is_nonzero_digit l = true -> 0 < v)%Z.
Proof.
  induction l as [| c l IH]; cbn [forallb existsb Number.digits length]; intros Hl acc count Hacc.
  - exists acc. rewrite Nat.add_0_r. repeat split; [lia | discriminate].
  - apply andb_prop in Hl as [Hc Hl].
    destruct (digit_in_decimal c Hc) as (d & -> & Hd & Hnz).
    destruct (IH Hl (acc * 10 + d)%Z (S count) ltac:(lia)) as (v & -> & Hv & Hpos).
    exists v. rewrite Nat.add_succ_r. split; [reflexivity | ]. split; [lia | ].
    intros H. apply orb_prop in H as [H | H]; [specialize (Hnz H); lia | auto].
Qed.

Lemma is_digit_solid (c : ascii) : is_digit c = true -> solid c.
Proof.
  unfold is_digit, solid. intros H. apply andb_prop in H as [H1 H2].
  apply Nat.leb_le in H1, H2. lia.
Qed.

Lemma is_digit_not_char (n : nat) (c : ascii) :
  is_digit c = true -> n < 48 \/ 57 < n -> Number.is_char n c = false.
Proof.
  unfold is_digit, Number.is_char. intros H Hn. apply andb_prop in H as [H1 H2].
  apply Nat.leb_le in H1, H2. apply Nat.eqb_neq. lia.
Qed.

Lemma trim_digits (l : list ascii) :
  forallb is_digit l = true -> Number.trim l = l.
Proof.
  intros H.
  assert (Hs : Forall solid l).
  { apply Forall_forall. intros c Hc. apply is_digit_solid.
    rewrite forallb_forall in H. now apply H. }
  pose proof (trim_solid [] l [] Numeric.white_nil Hs Numeric.white_nil) as Ht.
  cbn [app] in Ht. now rewrite app_nil_r in Ht.
Qed.

Lemma unsigned_decimal_digits (l : list ascii) :
  forallb is_digit l = true ->
  existsb is_nonzero_digit l = true ->
  Number.gt0 (Number.unsigned_decimal false l) = true.
Proof.
  intros Hd Hnz. unfold Number.unsigned_decimal.
  destruct (list_eq_dec ascii_dec l _) as [-> | _]; [discriminate | ].
  destruct (digits_decimal l Hd 0%Z 0 ltac:(lia)) as (v & -> & _ & Hv).
  destruct l as [| c l]; [discriminate | ].
  cbn [length Nat.add Number.gt0 negb andb].
  specialize (Hv Hnz). apply Z.ltb_lt in Hv. now rewrite Hv.
Qed.

Lemma gt0_positive_integer (s : string) :
  positive_integer s = true -> Number.gt0 (Number.of_string s) = true.
Proof.
  unfold positive_integer, Number.of_string. intros H.
  apply andb_prop in H as [Hd Hnz].
  set (l := list_ascii_of_string s) in *.
  unfold Number.of_chars. rewrite (trim_digits l Hd).
  destruct l as [| c r]; [discriminate | ]. cbn [Number.of_literal].
  pose proof Hd as Hd'. cbn [forallb] in Hd'. apply andb_prop in Hd' as [Hc Hr].
  rewrite (is_digit_not_char 45 c Hc), (is_digit_not_char 43 c Hc) by lia.
  destruct r as [| p r'].
  - now apply unsigned_decimal_digits.
  - cbn [forallb] in Hr. apply andb_prop in Hr as [Hp _].
    rewrite (is_digit_not_char 120 p Hp), (is_digit_not_char 88 p Hp),
      (is_digit_not_char 111 p Hp), (is_digit_not_char 79 p Hp),
      (is_digit_not_char 98 p Hp), (is_digit_not_char 66 p Hp) by lia.
    rewrite !andb_false_r. now apply unsigned_decimal_digits.
Qed.

Lemma createTx_options_positive_integer (rnd target winstonQty : string) (wallet : Wallet) :
  target <> EmptyString -> positive_integer winstonQty = true ->
  with_quantity target winstonQty
    (CreateTransaction (createTx_options rnd target winstonQty) wallet).
Proof.
  intros Ht Hq. unfold with_quantity, createTx_options, nonempty.
  destruct (String.eqb_spec target EmptyString) as [E | _]; [contradiction | ].
  rewrite (gt0_positive_integer _ Hq).
  destruct (String.eqb_spec winstonQty EmptyString) as [-> | _]; [discriminate | ].
  cbn. auto.
Qed.

(** A quantity written in decimal digits, not all of them zero, is
    attached together with the target whenever the target is not empty:
    every call of [arweave.createTransaction] of the write flow, the write
    dry run and the read flow then carries both. *)
Theorem integer_quantity_is_attached :
  forall (w : World) wallet contractId input tags target winstonQty
         myState fromParam contractInfoParam,
    target <> EmptyString ->
    positive_integer winstonQty = true ->
    Forall (with_quantity target winstonQty)
      (trace w (interactWrite wallet contractId input tags target winstonQty)) /\
    Forall (with_quantity target winstonQty)
      (trace w (interactWriteDryRun wallet contractId input tags target winstonQty
                  myState fromParam contractInfoParam)) /\
    Forall (with_quantity target winstonQty)
      (trace w (interactRead wallet contractId input tags target winstonQty)).
Proof.
  intros w wallet contractId input tags target winstonQty myState fromParam
    contractInfoParam Ht Hq.
  repeat split; (apply Calls_run; [ | constructor ]);
    split_prog; first [exact I | now apply createTx_options_positive_integer].
Qed.

Lemma integer_quantity_is_attached_witness :
  Forall (with_quantity "t" "1000000")
    (trace Sample.world
       (interactWrite Sample.wallet "c1" Sample.transfer [] "t" "1000000")).
Proof.
  apply (integer_quantity_is_attached Sample.world Sample.wallet "c1"%string
           Sample.transfer [] "t"%string "1000000"%string JNull JNull (InfoValue JNull));
    [discriminate | reflexivity].
Defined.

(** ** The rewriting of the contract source *)

Lemma drop_append (m rest : string) : Str.drop (String.length m) (m ++ rest) = rest.
Proof. induction m as [| c m IH]; cbn; [now destruct rest | exact IH]. Qed.

Section Replace.

Variable ws : list string.
Variable by_ : string.

Let pattern : list string := "export"%string :: ws.

Lemma word_inv (w s rest : string) :
  Regex.word w s = Some rest -> s = (w ++ rest)%string.
Proof.
  revert s. induction w as [| a w IH]; intros s; cbn.
  - now intros [= ->].
  - destruct s as [| b s]; [discriminate | ].
    destruct (Ascii.eqb_spec a b) as [-> | _]; [ | discriminate ].
    intros H. now rewrite (IH _ H).
Qed.

Lemma word_app (w rest : string) : Regex.word w (w ++ rest) = Some rest.
Proof.
  induction w as [| a w IH]; cbn; [reflexivity | ].
  now rewrite Ascii.eqb_refl.
Qed.

Lemma word_cons (a b : ascii) (w s : string) :
  Regex.word (String a w) (String b s)
  = if Ascii.eqb a b then Regex.word w s else None.
Proof. reflexivity. Qed.

Lemma replace_no_match (c : ascii) (r : string) :
  Regex.match_at pattern (String c r) = None ->
  Regex.replace_from pattern by_ 0 (String c r)
  = String c (Regex.replace_from pattern by_ 0 r).
Proof. intros H. cbn [Regex.replace_from]. now rewrite H. Qed.

Lemma replace_other_char (c : ascii) (r : string) :
  c <> "e"%char ->
  Regex.replace_from pattern by_ 0 (String c r)
  = String c (Regex.replace_from pattern by_ 0 r).
Proof.
  intros Hc. apply replace_no_match. unfold pattern.
  cbn [Regex.match_at Regex.word].
  destruct (Ascii.eqb_spec "e" c) as [<- | _]; [now elim Hc | reflexivity].
Qed.

Lemma replace_white_space (u r : string) :
  all_ws u = true ->
  Regex.replace_from pattern by_ 0 (u ++ r)
  = (u ++ Regex.replace_from pattern by_ 0 r)%string.
Proof.
  induction u as [| c u IH]; cbn [all_ws append]; intros H; [reflexivity | ].
  apply andb_prop in H as [Hc Hu].
  rewrite replace_other_char, (IH Hu); [reflexivity | ].
  intros ->. discriminate.
Qed.

Lemma replace_last_e (rest : string) :
  ~ occurs "xport" rest ->
  Regex.replace_from pattern by_ 0 (String "e" rest)
  = String "e" (Regex.replace_from pattern by_ 0 rest).
Proof.
  intros H. apply replace_no_match. unfold pattern, Regex.match_at.
  rewrite word_cons, Ascii.eqb_refl.
  destruct (Regex.word "xport" rest) as [t | ] eqn:E; [ | reflexivity ].
  apply word_inv in E. elim H. now exists EmptyString, t.
Qed.

Lemma no_export_of_no_xport (s : string) :
  ~ occurs "xport" s -> ~ occurs "export" s.
Proof.
  intros H (pre & post & ->). apply H.
  exists (pre ++ "e")%string, post.
  rewrite <- append_assoc. reflexivity.
Qed.

(** Where the word [export] does not occur, nothing is replaced. *)
Lemma replace_without_export (s : string) :
  ~ occurs "export" s -> Regex.replace_from pattern by_ 0 s = s.
Proof.
  induction s as [| c r IH]; intros H; [reflexivity | ].
  rewrite replace_no_match.
  - f_equal. apply IH. intros (pre & post & ->). apply H.
    now exists (String c pre), post.
  - unfold pattern. cbn [Regex.match_at].
    destruct (Regex.word "export" (String c r)) as [t | ] eqn:E; [ | reflexivity ].
    apply word_inv in E. elim H. now exists EmptyString, t.
Qed.

Lemma replace_skips (s : string) :
  forall n, Regex.replace_from pattern by_ n s
            = Regex.replace_from pattern by_ 0 (Str.drop n s).
Proof.
  induction s as [| c r IH]; intros [| n]; try reflexivity.
  cbn [Str.drop]. rewrite <- IH. reflexivity.
Qed.

Lemma string_of_list_ascii_app (a b : list ascii) :
  string_of_list_ascii (a ++ b)
  = (string_of_list_ascii a ++ string_of_list_ascii b)%string.
Proof. induction a as [| c a IH]; cbn; [reflexivity | now f_equal]. Qed.

Lemma skip_ws_suffix (s : string) : exists u, s = (u ++ Regex.skip_ws s)%string.
Proof.
  unfold Regex.skip_ws.
  destruct (trim_left_inv (list_ascii_of_string s)) as (pre & _ & Hl & _).
  exists (string_of_list_ascii pre).
  rewrite <- string_of_list_ascii_app, <- Hl. symmetry.
  apply string_of_list_ascii_of_string.
Qed.

Lemma words_after_suffix (l : list string) :
  forall s rest, Regex.words_after l s = Some rest -> exists u, s = (u ++ rest)%string.
Proof.
  induction l as [| w l IH]; intros s rest; cbn.
  - intros [= ->]. now exists EmptyString.
  - unfold Regex.ws_plus.
    destruct (Number.white_space (list_ascii_of_string s)); [ | discriminate ].
    destruct (Regex.word w (Regex.skip_ws s)) as [t | ] eqn:E; [ | discriminate ].
    intros H. apply IH in H as [u ->]. apply word_inv in E.
    destruct (skip_ws_suffix s) as [v Hv]. rewrite E in Hv.
    exists (v ++ w ++ u)%string. rewrite Hv at 1.
    now rewrite <- !append_assoc.
Qed.

Lemma replace_from_match (c : ascii) (r rest : string) :
  Regex.match_at pattern (String c r) = Some rest ->
  Regex.replace_from pattern by_ 0 (String c r)
  = (by_ ++ Regex.replace_from pattern by_
              (String.length (String c r) - String.length rest - 1) r)%string.
Proof. intros H. cbn [Regex.replace_from]. now rewrite H. Qed.

(** A match at the head is replaced, and the replacing goes on after it. *)
Lemma replace_match (s rest : string) :
  Regex.match_at pattern s = Some rest ->
  Regex.replace_all pattern by_ s = (by_ ++ Regex.replace_all pattern by_ rest)%string.
Proof.
  intros H. pose proof H as Hm. unfold pattern in Hm. cbn [Regex.match_at] in Hm.
  destruct (Regex.word "export" s) as [t | ] eqn:E; [ | discriminate ].
  apply word_inv in E. apply words_after_suffix in Hm as [u ->]. subst s.
  change ("export" ++ u ++ rest)%string
    with (String "e" ("xport" ++ u ++ rest)) in *.
  remember ("xport" ++ u ++ rest)%string as r eqn:Hr.
  unfold Regex.replace_all.
  rewrite (replace_from_match _ _ _ H), replace_skips. do 2 f_equal.
  subst r. cbn [String.length].
  replace (S (String.length ("xport" ++ u ++ rest)) - String.length rest - 1)
    with (String.length ("xport" ++ u)%string).
  - rewrite append_assoc. apply drop_append.
  - rewrite append_assoc, !length_append. lia.
Qed.

End Replace.

Lemma occursb_unfold (w s : string) :
  occursb w s =
  match Regex.word w s with
  | Some _ => true
  | None =>
      match s with
      | EmptyString => false
      | String _ r => occursb w r
      end
  end.
Proof. destruct s; reflexivity. Qed.

Lemma occursb_false (w s : string) : occursb w s = false -> ~ occurs w s.
Proof.
  intros H (pre & post & ->). induction pre as [| c pre IH].
  - cbn [append] in H. rewrite occursb_unfold, word_app in H. discriminate.
  - cbn [append] in H. rewrite occursb_unfold in H.
    destruct (Regex.word w (String c (pre ++ w ++ post))); [discriminate | auto].
Qed.

Lemma white_space_ascii (c : ascii) (l : list ascii) :
  Number.ascii_white_space c = true -> Number.white_space (c :: l) = Some l.
Proof. intros H. unfold Number.white_space. now rewrite H. Qed.

Lemma skip_ws_solid (c : ascii) (r : string) :
  solid c -> Regex.skip_ws (String c r) = String c r.
Proof.
  intros Hc. unfold Regex.skip_ws. cbn [list_ascii_of_string].
  rewrite (trim_left_solid_head _ _ Hc). cbn [string_of_list_ascii].
  now rewrite string_of_list_ascii_of_string.
Qed.

Lemma skip_ws_app (u t : string) :
  all_ws u = true -> Regex.skip_ws t = t -> Regex.skip_ws (u ++ t) = t.
Proof.
  induction u as [| c u IH]; cbn [all_ws append]; intros Hu Ht; [exact Ht | ].
  apply andb_prop in Hu as [Hc Hu]. unfold Regex.skip_ws. cbn [list_ascii_of_string].
  rewrite trim_left_unfold, (white_space_ascii _ _ Hc). now apply IH.
Qed.

Lemma ws_plus_app (u t : string) :
  all_ws u = true -> u <> EmptyString -> Regex.skip_ws t = t ->
  Regex.ws_plus (u ++ t) = Some t.
Proof.
  destruct u as [| c u]; [contradiction | ]. intros Hu _ Ht.
  pose proof (skip_ws_app (String c u) t Hu Ht) as Hs.
  cbn [all_ws] in Hu. apply andb_prop in Hu as [Hc Hu].
  unfold Regex.ws_plus. cbn [list_ascii_of_string append].
  rewrite (white_space_ascii _ _ Hc). cbn [append] in Hs. now rewrite Hs.
Qed.

(** A source in which the word [export] does not occur is evaluated as it
    is: both replacements leave it unchanged, and the function that
    [createContractExecutionEnvironment] builds has the fixed prelude, this
    very source and the closing [return handle] for its body. *)
Theorem source_without_export_is_kept :
  forall (w : World) contractSrc contractId,
    occursb "export" contractSrc = false ->
    normalized_source contractSrc = contractSrc /\
    Forall (builds (returningSrc contractSrc))
      (trace w (createContractExecutionEnvironment contractSrc contractId)).
Proof.
  intros w contractSrc contractId H. apply occursb_false in H.
  assert (Hn : normalized_source contractSrc = contractSrc).
  { unfold normalized_source, Regex.replace_all.
    rewrite (replace_without_export _ _ contractSrc H).
    apply (replace_without_export _ _ contractSrc H). }
  split; [exact Hn | ].
  apply Calls_run; [ | constructor ].
  unfold createContractExecutionEnvironment.
  change (Regex.replace_all _ "function handle" _)
    with (normalized_source contractSrc).
  rewrite Hn. split_prog; cbn; auto.
Qed.

Lemma source_without_export_is_kept_witness :
  normalized_source "function handle(state, action) { return { state } }"
  = "function handle(state, action) { return { state } }"%string.
Proof.
  apply (source_without_export_is_kept Sample.world
           "function handle(state, action) { return { state } }"%string
           "c1"%string eq_refl).
Defined.

(** The [export] keyword is removed from a declaration of [handle], plain
    or [async], whatever white space separates the words, and the rest of
    the source is kept as it is (here a rest in which [xport] does not
    occur, so that no other match can arise). *)
Theorem export_keyword_is_removed :
  forall ws1 ws2 ws3 rest : string,
    all_ws ws1 = true -> ws1 <> EmptyString ->
    all_ws ws2 = true -> ws2 <> EmptyString ->
    all_ws ws3 = true -> ws3 <> EmptyString ->
    occursb "xport" rest = false ->
    normalized_source ("export" ++ ws1 ++ "function" ++ ws2 ++ "handle" ++ rest)
    = ("function handle" ++ rest)%string /\
    normalized_source
      ("export" ++ ws1 ++ "async" ++ ws2 ++ "function" ++ ws3 ++ "handle" ++ rest)
    = ("async function handle" ++ rest)%string.
Proof.
  intros ws1 ws2 ws3 rest H1 N1 H2 N2 H3 N3 Hx. apply occursb_false in Hx.
  pose proof (no_export_of_no_xport _ Hx) as He.
  unfold normalized_source. split.
  - assert (R1 : Regex.replace_all ["export"; "async"; "function"; "handle"]%string
                   "async function handle"
                   ("export" ++ ws1 ++ "function" ++ ws2 ++ "handle" ++ rest)
                 = ("export" ++ ws1 ++ "function" ++ ws2 ++ "handle" ++ rest)%string).
    { unfold Regex.replace_all.
      change ("export" ++ ws1 ++ "function" ++ ws2 ++ "handle" ++ rest)%string
        with (String "e" ("xport" ++ ws1 ++ "function" ++ ws2 ++ "handle" ++ rest)).
      rewrite replace_no_match.
      - cbn [append].
        repeat (rewrite replace_other_char by discriminate).
        rewrite replace_white_space by assumption. cbn [append].
        repeat (rewrite replace_other_char by discriminate).
        rewrite replace_white_space by assumption. cbn [append].
        repeat (rewrite replace_other_char by discriminate).
        rewrite replace_last_e by assumption.
        rewrite replace_without_export by assumption. reflexivity.
      - change (String "e" ("xport" ++ ws1 ++ "function" ++ ws2 ++ "handle" ++ rest))
          with ("export" ++ ws1 ++ "function" ++ ws2 ++ "handle" ++ rest)%string.
        cbn [Regex.match_at]. rewrite word_app. cbn [Regex.words_after].
        rewrite ws_plus_app by first [assumption | apply skip_ws_solid; unfold solid; cbn; lia]. reflexivity. }
    rewrite R1, (replace_match _ _ _ rest).
    + unfold Regex.replace_all. rewrite replace_without_export by assumption.
      reflexivity.
    + cbn [Regex.match_at]. rewrite word_app. cbn [Regex.words_after].
      rewrite ws_plus_app by first [assumption | apply skip_ws_solid; unfold solid; cbn; lia]. rewrite word_app.
      rewrite ws_plus_app by first [assumption | apply skip_ws_solid; unfold solid; cbn; lia]. rewrite word_app.
      reflexivity.
  - rewrite (replace_match ["async"; "function"; "handle"]%string
               "async function handle" _ rest).
    + unfold Regex.replace_all. rewrite (replace_without_export _ _ rest He).
      cbn [append].
      repeat (rewrite replace_other_char by discriminate).
      rewrite replace_last_e by assumption.
      rewrite replace_without_export by assumption. reflexivity.
    + cbn [Regex.match_at]. rewrite word_app. cbn [Regex.words_after].
      rewrite ws_plus_app by first [assumption | apply skip_ws_solid; unfold solid; cbn; lia]. rewrite word_app.
      rewrite ws_plus_app by first [assumption | apply skip_ws_solid; unfold solid; cbn; lia]. rewrite word_app.
      rewrite ws_plus_app by first [assumption | apply skip_ws_solid; unfold solid; cbn; lia]. rewrite word_app.
      reflexivity.
Qed.

Lemma export_keyword_is_removed_witness :
  normalized_source Sample.source
  = "function handle(state, action) { return { state } }"%string.
Proof.
  apply (proj1 (export_keyword_is_removed " " " " " "
                  "(state, action) { return { state } }"
                  eq_refl ltac:(discriminate) eq_refl ltac:(discriminate)
                  eq_refl ltac:(discriminate) eq_refl)).
Defined.

(** ** What the write flow needs *)

(** The write flow does not look at the contract: it fetches no
    transaction, reads no state, asks neither the wallet for an address
    nor the network for its height, stores no active transaction and
    invokes no handler.  Its calls are the nonce, the creation of the
    transaction, its signature and its submission. *)
Theorem interactWrite_needs_no_state :
  forall (w : World) wallet contractId input tags target winstonQty,
    Forall write_call
      (trace w (interactWrite wallet contractId input tags target winstonQty)).
Proof.
  intros. apply Calls_run; [ | constructor ].
  split_prog; exact I.
Qed.

(** ** A contract that cannot be fetched *)

Lemma run_loadContract_unfetchable (w : World) h contractID reason :
  w h (TransactionsGet (JStr contractID)) = Fail reason ->
  run w h (loadContract contractID)
  = (h ++ [TransactionsGet (JStr contractID)], Thrown (Rejected reason)).
Proof.
  intros H. unfold loadContract, arweave.transactions_get, call.
  cbn [run bind]. now rewrite H.
Qed.

(** When the ledger rejects the fetch of the defining transaction, the
    read flow, and each dry run that has to load the contract, fails with
    that rejection after this single call: no state is read, no wallet or
    network call is made, no transaction is built. *)
Theorem unfetchable_contract_fails_at_once :
  forall (w : World) wallet tx contractId input tags target winstonQty
         myState fromParam v reason,
    w [] (TransactionsGet (JStr contractId)) = Fail reason ->
    falsy_given v ->
    run w [] (interactRead wallet contractId input tags target winstonQty)
    = ([TransactionsGet (JStr contractId)], Thrown (Rejected reason)) /\
    run w []
      (interactWriteDryRun wallet contractId input tags target winstonQty
         myState fromParam (InfoValue v))
    = ([TransactionsGet (JStr contractId)], Thrown (Rejected reason)) /\
    run w []
      (interactWriteDryRunCustom tx contractId input myState fromParam (InfoValue v))
    = ([TransactionsGet (JStr contractId)], Thrown (Rejected reason)).
Proof.
  intros w wallet tx contractId input tags target winstonQty myState fromParam v
    reason H [Hv Hv'].
  unfold interactRead, interactWriteDryRun, interactWriteDryRunCustom, default_info.
  rewrite (default_param_given _ v Hv'). cbn [info_truthy]. rewrite Hv.
  rewrite !run_bind, (run_loadContract_unfetchable w [] contractId reason H).
  repeat split; reflexivity.
Qed.

Lemma unfetchable_contract_fails_at_once_witness :
  run Sample.world [] (interactRead Sample.wallet "zz" Sample.transfer [] "" "")
  = ([TransactionsGet (JStr "zz")], Thrown (Rejected "404")).
Proof.
  apply (unfetchable_contract_fails_at_once Sample.world Sample.wallet
           (Sample.mkTx "t1" "3456" []) "zz"%string Sample.transfer []
           ""%string ""%string JNull JNull JNull "404"%string eq_refl).
  split; [reflexivity | discriminate].
Defined.

(** ** The dry runs without their optional arguments *)

Lemma omitted_dry_run_stops wallet contractId input tags target winstonQty :
  Stops (interactWriteDryRun wallet contractId input tags target winstonQty
           JUndefined JUndefined (InfoValue JUndefined)).
Proof.
  unfold interactWriteDryRun. cbn [default_param default_info info_truthy truthy bind].
  unfold arweave.network_getInfo, call. cbn [bind Stops]. intros info.
  apply Stops_bind_r. intros built. apply Stops_bind_l. exact I.
Qed.

(** With the three optional arguments left out their defaults stand in,
    and these are empty objects, which are truthy: neither dry run loads
    the contract, reads the state or asks the wallet; neither stores an
    active transaction nor invokes a handler, and neither returns.  The
    custom dry run ends after the network information, on the assignment to
    [contractInfo.swGlobal._activeTx]; so does the write dry run once it
    has built its transaction. *)
Theorem dry_runs_without_optional_arguments :
  forall (w : World) wallet tx contractId input tags target winstonQty,
    Forall resolves_nothing
      (trace w (interactWriteDryRun wallet contractId input tags target winstonQty
                  JUndefined JUndefined (InfoValue JUndefined))) /\
    Forall resolves_nothing
      (trace w (interactWriteDryRunCustom tx contractId input
                  JUndefined JUndefined (InfoValue JUndefined))) /\
    (forall r,
        outcome w (interactWriteDryRun wallet contractId input tags target winstonQty
                     JUndefined JUndefined (InfoValue JUndefined)) <> Returned r) /\
    (forall r,
        outcome w (interactWriteDryRunCustom tx contractId input
                     JUndefined JUndefined (InfoValue JUndefined)) <> Returned r) /\
    (forall info,
        w [] NetworkGetInfo = Ok info ->
        run w [] (interactWriteDryRunCustom tx contractId input
                    JUndefined JUndefined (InfoValue JUndefined))
        = ([NetworkGetInfo],
           Thrown (TypeError "Cannot set property '_activeTx' of undefined")) /\
        forall h built,
          run w [NetworkGetInfo] (createTx wallet contractId input tags target winstonQty)
          = (h, Returned built) ->
          run w [] (interactWriteDryRun wallet contractId input tags target winstonQty
                      JUndefined JUndefined (InfoValue JUndefined))
          = (h, Thrown (TypeError "Cannot set property '_activeTx' of undefined"))).
Proof.
  intros w wallet tx contractId input tags target winstonQty.
  split; [ | split; [ | split; [ | split ]]].
  - apply Calls_run; [ | constructor ].
    unfold interactWriteDryRun. cbn [default_param default_info info_truthy truthy].
    split_prog; exact I.
  - apply Calls_run; [ | constructor ].
    unfold interactWriteDryRunCustom. cbn [default_param default_info info_truthy truthy].
    split_prog; exact I.
  - intros r. apply Stops_run, omitted_dry_run_stops.
  - intros r. apply Stops_run.
    unfold interactWriteDryRunCustom. cbn [default_param default_info info_truthy truthy bind].
    unfold arweave.network_getInfo, call. cbn [bind Stops]. intros info.
    apply Stops_bind_l. exact I.
  - intros info Hinfo. split.
    + unfold interactWriteDryRunCustom.
      cbn [default_param default_info info_truthy truthy bind].
      rewrite run_bind, run_network_getInfo, Hinfo. reflexivity.
    + intros h built Hbuilt. unfold interactWriteDryRun.
      cbn [default_param default_info info_truthy truthy bind].
      rewrite run_bind, run_network_getInfo, Hinfo. cbn [app].
      rewrite run_bind, Hbuilt. reflexivity.
Qed.

Lemma dry_runs_without_optional_arguments_witness :
  run Sample.world []
    (interactWriteDryRunCustom (Sample.mkTx "t1" "3456" []) "c1" Sample.transfer
       JUndefined JUndefined (InfoValue JUndefined))
  = ([NetworkGetInfo], Thrown (TypeError "Cannot set property '_activeTx' of undefined")).
Proof.
  apply (proj2 (proj2 (proj2 (proj2
           (dry_runs_without_optional_arguments Sample.world Sample.wallet
              (Sample.mkTx "t1" "3456" []) "c1"%string Sample.transfer []
              ""%string ""%string))))
           {| height := 7; current := "blk" |} eq_refl).
Defined.
